(** * Quanta execution core: bytecode pipeline and WebAssembly backend

    A shallow embedding of [core/src/Bytecode.cpp] (compiler, interpreter,
    JIT bridge) and of the WebAssembly source file (linear memory, module
    decoder, module interpreter, instance wiring), followed by the
    properties established about them.

    Conventions.
    - [uint32_t] values are integers in [Z] with the wrap-around written
      out ([wrap32]), or in [N] where the value only indexes a container;
      [int32_t] values are kept in the signed range by [sint32]. Signed
      overflow is given its two's-complement result.
    - [uint8_t] is [Byte.byte]; [byte_val] gives its value in [0, 256).
    - [double] is the kernel's binary64 type [float]; [float] (binary32)
      is [spec_float] with the binary32 operations of [SpecFloat].
    - A [std::vector] used as a stack is a list whose head is [back()].
    - A pair of pointers [(ptr, end)] into one buffer is the list of the
      bytes in [[ptr, end)]; advancing [ptr] drops from the front.
    - Member functions take the object's state and return the new state
      next to their result; a pointer that may be null is an [option].
    - A read outside a container is [Undefined_behaviour] in an [outcome];
      the properties show where it cannot happen. *)

From Stdlib Require Import ZArith Floats Uint63 Lia.
From stdpp Require Import base gmap strings list pretty.
From Equations Require Import Equations.

Local Open Scope Z_scope.

(** ** Machine integers and bytes *)

Definition wrap32 (z : Z) : Z := z mod 2 ^ 32.

Definition sint32 (z : Z) : Z := (z + 2 ^ 31) mod 2 ^ 32 - 2 ^ 31.

Definition INT32_MIN : Z := - 2 ^ 31.
Definition INT32_MAX : Z := 2 ^ 31 - 1.

Definition byte_val (b : Byte.byte) : Z := Z.of_N (Byte.to_N b).

(** [static_cast<double>(int32_t)]: exact. *)
Definition double_of_int (z : Z) : float :=
  if z <? 0 then (- PrimFloat.of_uint63 (Uint63.of_Z (- z)))%float
  else PrimFloat.of_uint63 (Uint63.of_Z z).

(** Truncation of a finite double toward zero. *)
Definition trunc_double (x : float) : option Z :=
  match Prim2SF x with
  | S754_zero _ => Some 0
  | S754_finite s m e =>
      let mag := if 0 <=? e then Z.pos m * 2 ^ e else Z.pos m / 2 ^ (- e) in
      Some (if s then - mag else mag)
  | _ => None
  end.

(** [static_cast<int32_t>(double)]. The conversion is undefined in C++ when
    the truncated value does not fit; the model gives those inputs the value
    x86-64's [cvttsd2si] produces, [INT32_MIN]. *)
Definition int_of_double (x : float) : Z :=
  match trunc_double x with
  | Some z => if (INT32_MIN <=? z) && (z <=? INT32_MAX) then z else INT32_MIN
  | None => INT32_MIN
  end.

(** ** Outcomes

    The result of running code that may step outside what C++ defines:
    [Undefined_behaviour] marks an access outside a container; [Out_of_fuel]
    is the model's own, for a loop cut short by its iteration budget. *)
Inductive outcome (A : Type) :=
| Ok (a : A)
| Undefined_behaviour
| Out_of_fuel.
Arguments Ok {A} a.
Arguments Undefined_behaviour {A}.
Arguments Out_of_fuel {A}.

(** ** The host value model

    [Value] belongs to the host object model ([Value.h]); the execution core
    uses it through the operations below. *)

Class HostValue := {
  Value : Type;
  undefined : Value;                 (* Value() *)
  of_number : float -> Value;        (* Value(double) *)
  of_string : string -> Value;       (* Value(std::string) *)
  is_number : Value -> bool;
  to_number : Value -> float;
  as_number : Value -> float;
  to_string : Value -> string
}.

(** What the core relies on when it builds a value and reads it back. *)
Class HostValueLaws (H : HostValue) : Prop := {
  is_number_of_number : forall x, is_number (of_number x) = true;
  to_number_of_number : forall x, to_number (of_number x) = x;
  as_number_of_number : forall x, as_number (of_number x) = x;
  is_number_of_string : forall s, is_number (of_string s) = false;
  to_string_of_string : forall s, to_string (of_string s) = s
}.

(** *** A reference host

    A small JavaScript-like value type that satisfies [HostValueLaws]. Numbers
    print as their exact decimal expansion. *)

Module RefHost.

Inductive value :=
| Undefined
| Number (x : float)
| String (s : string)
| Boolean (b : bool).

(** The decimal digits of [num / 2^k] after the point, [num < 2^k]. *)
Fixpoint fraction_digits (fuel : nat) (num k : Z) : string :=
  match fuel with
  | O => ""
  | S fuel' =>
      if num =? 0 then ""
      else
        let num10 := num * 10 in
        pretty (num10 / 2 ^ k) +:+ fraction_digits fuel' (num10 mod 2 ^ k) k
  end.

Definition number_to_string (x : float) : string :=
  match Prim2SF x with
  | S754_zero _ => "0"
  | S754_infinity s => if s then "-Infinity" else "Infinity"
  | S754_nan => "NaN"
  | S754_finite s m e =>
      let sign := if s then "-" else "" in
      if 0 <=? e then sign +:+ pretty (Z.pos m * 2 ^ e)
      else
        let k := - e in
        let int_part := Z.pos m / 2 ^ k in
        let frac := Z.pos m mod 2 ^ k in
        if frac =? 0 then sign +:+ pretty int_part
        else sign +:+ pretty int_part +:+ "." +:+
             fraction_digits (Z.to_nat k) frac k
  end.

Definition value_to_string (v : value) : string :=
  match v with
  | Undefined => "undefined"
  | Number x => number_to_string x
  | String s => s
  | Boolean b => if b then "true" else "false"
  end.

Definition value_to_number (v : value) : float :=
  match v with
  | Number x => x
  | Boolean b => if b then 1%float else 0%float
  | _ => nan
  end.

Definition value_is_number (v : value) : bool :=
  match v with Number _ => true | _ => false end.

Definition host : HostValue := {|
  Value := value;
  undefined := Undefined;
  of_number := Number;
  of_string := String;
  is_number := value_is_number;
  to_number := value_to_number;
  as_number := value_to_number;
  to_string := value_to_string
|}.

End RefHost.

(** ** Bytecode: data model ([Bytecode.h])

    The header is not part of the sources at hand. The types below carry the
    members the implementation file reads and writes. *)

(** The opcodes the implementation file names; [UNLISTED] stands for every
    other enumerator. *)
Inductive BytecodeInstruction :=
| NOP
| LOAD_CONST
| ADD
| CALL
| RETURN
| HALT
| UNLISTED (code : Z).

Definition instruction_eqb (a b : BytecodeInstruction) : bool :=
  match a, b with
  | NOP, NOP | LOAD_CONST, LOAD_CONST | ADD, ADD
  | CALL, CALL | RETURN, RETURN | HALT, HALT => true
  | UNLISTED x, UNLISTED y => x =? y
  | _, _ => false
  end.

Inductive OperandType := CONSTANT | IMMEDIATE | REGISTER.

Record BytecodeOperand := {
  operand_type : OperandType;
  value : N                             (* uint32_t *)
}.

Record BytecodeOp := {
  instruction : BytecodeInstruction;
  operands : list BytecodeOperand
}.

Section Bytecode.

Context {host : HostValue}.

Record BytecodeFunction := {
  function_name : string;
  instructions : list BytecodeOp;
  constants : list Value;
  register_count : Z;                   (* uint32_t *)
  parameter_count : Z;                  (* uint32_t *)
  hot_spots : gmap Z Z;                 (* instruction address -> count *)
  is_optimized : bool;
  optimization_level : Z                (* uint32_t *)
}.

Definition set_instructions (f : BytecodeFunction) (ops : list BytecodeOp) :=
  {| function_name := function_name f; instructions := ops;
     constants := constants f; register_count := register_count f;
     parameter_count := parameter_count f; hot_spots := hot_spots f;
     is_optimized := is_optimized f;
     optimization_level := optimization_level f |}.

Definition set_constants (f : BytecodeFunction) (cs : list Value) :=
  {| function_name := function_name f; instructions := instructions f;
     constants := cs; register_count := register_count f;
     parameter_count := parameter_count f; hot_spots := hot_spots f;
     is_optimized := is_optimized f;
     optimization_level := optimization_level f |}.

Definition set_register_count (f : BytecodeFunction) (n : Z) :=
  {| function_name := function_name f; instructions := instructions f;
     constants := constants f; register_count := n;
     parameter_count := parameter_count f; hot_spots := hot_spots f;
     is_optimized := is_optimized f;
     optimization_level := optimization_level f |}.

Definition set_hot_spots (f : BytecodeFunction) (h : gmap Z Z) :=
  {| function_name := function_name f; instructions := instructions f;
     constants := constants f; register_count := register_count f;
     parameter_count := parameter_count f; hot_spots := h;
     is_optimized := is_optimized f;
     optimization_level := optimization_level f |}.

Definition set_optimized (f : BytecodeFunction) (level : Z) :=
  {| function_name := function_name f; instructions := instructions f;
     constants := constants f; register_count := register_count f;
     parameter_count := parameter_count f; hot_spots := hot_spots f;
     is_optimized := true;
     optimization_level := level |}.

(** Modelled from the spec: the constructor [BytecodeFunction(name)] is
    declared in [Bytecode.h]; a new function has no instructions, an empty
    constant pool, no counters, and optimization tier 0 (unoptimized). *)
Definition new_function (name : string) : BytecodeFunction :=
  {| function_name := name; instructions := []; constants := [];
     register_count := 0; parameter_count := 0; hot_spots := ∅;
     is_optimized := false; optimization_level := 0 |}.

(** Modelled from the spec: [emit] is declared in [Bytecode.h]; it appends
    one instruction to the ordered instruction sequence. *)
Definition emit (f : BytecodeFunction) (i : BytecodeInstruction)
    (ops : list BytecodeOperand) : BytecodeFunction :=
  set_instructions f (instructions f ++ [{| instruction := i; operands := ops |}]).

(** Modelled from the spec: [add_constant] is declared in [Bytecode.h]; the
    constant pool is append-only and index-addressed, and the index of the
    appended value is returned. *)
Definition add_constant (f : BytecodeFunction) (v : Value) : N * BytecodeFunction :=
  ((N.of_nat (length (constants f)) mod 2 ^ 32)%N,
   set_constants f (constants f ++ [v])).

(** ** BytecodeCompiler *)

(** The node kinds [compile_node_simple] switches on ([AST.h]); [OTHER_NODE]
    stands for every other kind. *)
Inductive NodeType :=
| BINARY_EXPRESSION
| NUMBER_LITERAL
| STRING_LITERAL
| BOOLEAN_LITERAL
| CALL_EXPRESSION
| OTHER_NODE.

(** The parser's node: its kind and the value [evaluate] yields for it. *)
Record ASTNode := {
  get_type : NodeType;
  evaluate : Value
}.

Record BytecodeCompiler := {
  optimization_enabled_ : bool;
  next_register_ : Z
}.

Definition new_compiler : BytecodeCompiler :=
  {| optimization_enabled_ := true; next_register_ := 0 |}.

(** Modelled from the spec: [reset_registers] is declared in [Bytecode.h];
    register indices start at 0 for every compilation unit. *)
Definition reset_registers (c : BytecodeCompiler) : BytecodeCompiler :=
  {| optimization_enabled_ := optimization_enabled_ c; next_register_ := 0 |}.

Definition compile_node_simple (node : option ASTNode) (f : BytecodeFunction)
    : BytecodeFunction :=
  match node with
  | None => f
  | Some n =>
      match get_type n with
      | BINARY_EXPRESSION =>
          let '(i1, f) := add_constant f (of_number 1) in
          let f := emit f LOAD_CONST [{| operand_type := CONSTANT; value := i1 |}] in
          let '(i2, f) := add_constant f (of_number 2) in
          let f := emit f LOAD_CONST [{| operand_type := CONSTANT; value := i2 |}] in
          emit f ADD []
      | NUMBER_LITERAL | STRING_LITERAL | BOOLEAN_LITERAL =>
          let v := evaluate n in
          let '(const_idx, f) := add_constant f v in
          emit f LOAD_CONST [{| operand_type := CONSTANT; value := const_idx |}]
      | CALL_EXPRESSION =>
          let '(i, f) := add_constant f (of_string "function") in
          let f := emit f LOAD_CONST [{| operand_type := CONSTANT; value := i |}] in
          emit f CALL [{| operand_type := IMMEDIATE; value := 0%N |}]
      | OTHER_NODE => emit f NOP []
      end
  end.

(** [std::remove_if] followed by [erase]: the instructions that are not
    [NOP], in their order. *)
Definition remove_nops (ops : list BytecodeOp) : list BytecodeOp :=
  List.filter (fun op => negb (instruction_eqb (instruction op) NOP)) ops.

(** The function is passed by pointer; [None] is the null pointer. *)
Definition optimize_bytecode (function : option BytecodeFunction) (level : Z)
    : option BytecodeFunction :=
  match function with
  | None => None
  | Some f =>
      if level =? 0 then Some f
      else Some (set_optimized (set_instructions f (remove_nops (instructions f))) level)
  end.

Definition dead_code_elimination_pass (f : BytecodeFunction) : BytecodeFunction :=
  set_instructions f (remove_nops (instructions f)).

Definition ends_in_return (ops : list BytecodeOp) : bool :=
  match last ops with
  | Some op => instruction_eqb (instruction op) RETURN
  | None => false
  end.

Definition compile (c : BytecodeCompiler) (ast : option ASTNode)
    (function_name : string) : option BytecodeFunction * BytecodeCompiler :=
  match ast with
  | None => (None, c)
  | Some _ =>
      let f := new_function function_name in
      let c := reset_registers c in
      let f := compile_node_simple ast f in
      let f := if ends_in_return (instructions f) then f else emit f RETURN [] in
      let f := if optimization_enabled_ c
               then match optimize_bytecode (Some f) 2 with Some f' => f' | None => f end
               else f in
      (Some (set_register_count f (next_register_ c)), c)
  end.

(** ** BytecodeVM *)

(** [stats_]: counters whose width the header declares; the model does not
    wrap them. *)
Record VMStats := {
  instructions_executed : Z;
  optimized_paths_taken : Z;
  function_calls : Z
}.

Record BytecodeVM := {
  stack_ : list Value;
  registers_ : list Value;
  profiling_enabled_ : bool;
  stats_ : VMStats
}.

Definition new_vm : BytecodeVM :=
  {| stack_ := []; registers_ := []; profiling_enabled_ := true;
     stats_ := {| instructions_executed := 0; optimized_paths_taken := 0;
                  function_calls := 0 |} |}.

Definition set_stack (vm : BytecodeVM) (s : list Value) : BytecodeVM :=
  {| stack_ := s; registers_ := registers_ vm;
     profiling_enabled_ := profiling_enabled_ vm; stats_ := stats_ vm |}.

Definition set_registers (vm : BytecodeVM) (r : list Value) : BytecodeVM :=
  {| stack_ := stack_ vm; registers_ := r;
     profiling_enabled_ := profiling_enabled_ vm; stats_ := stats_ vm |}.

Definition set_stats (vm : BytecodeVM) (st : VMStats) : BytecodeVM :=
  {| stack_ := stack_ vm; registers_ := registers_ vm;
     profiling_enabled_ := profiling_enabled_ vm; stats_ := st |}.

Definition count_instruction (vm : BytecodeVM) : BytecodeVM :=
  set_stats vm
    {| instructions_executed := instructions_executed (stats_ vm) + 1;
       optimized_paths_taken := optimized_paths_taken (stats_ vm);
       function_calls := function_calls (stats_ vm) |}.

Definition count_optimized_path (vm : BytecodeVM) : BytecodeVM :=
  set_stats vm
    {| instructions_executed := instructions_executed (stats_ vm);
       optimized_paths_taken := optimized_paths_taken (stats_ vm) + 1;
       function_calls := function_calls (stats_ vm) |}.

Definition count_function_call (vm : BytecodeVM) : BytecodeVM :=
  set_stats vm
    {| instructions_executed := instructions_executed (stats_ vm);
       optimized_paths_taken := optimized_paths_taken (stats_ vm);
       function_calls := function_calls (stats_ vm) + 1 |}.

(** Modelled from the spec: [push] and [pop] are declared in [Bytecode.h];
    the operand stack is a last-in-first-out sequence. Popping an empty
    stack is outside what the model defines. *)
Definition push (v : Value) (vm : BytecodeVM) : BytecodeVM :=
  set_stack vm (v :: stack_ vm).

Definition pop (vm : BytecodeVM) : outcome (Value * BytecodeVM) :=
  match stack_ vm with
  | v :: s => Ok (v, set_stack vm s)
  | [] => Undefined_behaviour
  end.

(** [function->hot_spots[pc]++]; a missing key starts at 0. *)
Definition record_execution (function : option BytecodeFunction) (pc : Z)
    : option BytecodeFunction :=
  match function with
  | None => None
  | Some f =>
      Some (set_hot_spots f (<[pc := default 0 (hot_spots f !! pc) + 1]> (hot_spots f)))
  end.

(** One instruction. The function object is reachable through a non-const
    pointer, so it is part of the state handed back. [context] is unused and
    [pc] is never written; neither is a result. *)
Definition execute_instruction_simple (op : BytecodeOp) (f : BytecodeFunction)
    (pc : Z) (vm : BytecodeVM) : outcome (BytecodeFunction * BytecodeVM) :=
  match instruction op with
  | LOAD_CONST =>
      match operands op with
      | o :: _ =>
          let const_idx := value o in
          if (const_idx <? N.of_nat (length (constants f)))%N then
            match constants f !! N.to_nat const_idx with
            | Some c => Ok (f, push c vm)
            | None => Undefined_behaviour
            end
          else Ok (f, vm)
      | [] => Ok (f, vm)
      end
  | ADD =>
      if 2 <=? Z.of_nat (length (stack_ vm)) then
        match pop vm with
        | Ok (right_, vm) =>
            match pop vm with
            | Ok (left_, vm) =>
                let vm :=
                  if is_number left_ && is_number right_
                  then push (of_number (to_number left_ + to_number right_)%float) vm
                  else push (of_string (to_string left_ +:+ to_string right_)) vm in
                Ok (f, count_optimized_path vm)
            | _ => Undefined_behaviour
            end
        | _ => Undefined_behaviour
        end
      else Ok (f, vm)
  | CALL => Ok (f, push (of_number 42) (count_function_call vm))
  | RETURN => Ok (f, vm)
  | NOP => Ok (f, vm)
  | _ => Ok (f, vm)
  end.

Definition is_return_or_halt (op : BytecodeOp) : bool :=
  instruction_eqb (instruction op) RETURN || instruction_eqb (instruction op) HALT.

(** The [while (pc < function->instructions.size())] loop of [execute]. *)
Fixpoint execute_loop (fuel : nat) (f : BytecodeFunction) (pc : Z)
    (vm : BytecodeVM) : outcome (BytecodeFunction * BytecodeVM) :=
  if pc <? Z.of_nat (length (instructions f)) then
    match fuel with
    | O => Out_of_fuel
    | S fuel' =>
        match instructions f !! Z.to_nat pc with
        | None => Undefined_behaviour
        | Some op =>
            match execute_instruction_simple op f pc vm with
            | Ok (f, vm) =>
                let vm := count_instruction vm in
                if is_return_or_halt op then Ok (f, vm)
                else execute_loop fuel' f (wrap32 (pc + 1)) vm
            | other => other
            end
        end
    end
  else Ok (f, vm).

(** The parameter loop of [execute], from index [i] on. *)
Fixpoint bind_parameters (i : nat) (args : list Value) (parameter_count : Z)
    (registers : list Value) : list Value :=
  match args with
  | [] => registers
  | a :: args' =>
      if Z.of_nat i <? parameter_count then
        bind_parameters (S i) args' parameter_count
          (if Z.of_nat i <? Z.of_nat (length registers)
           then <[i := a]> registers else registers)
      else registers
  end.

(** [execute]. The host operations are total functions here, so the [catch]
    branch, which only a throwing host operation reaches, has no
    counterpart. The loop's budget is the number of instructions at entry. *)
Definition execute (function : option BytecodeFunction) (args : list Value)
    (vm : BytecodeVM) : outcome (Value * option BytecodeFunction * BytecodeVM) :=
  match function with
  | None => Ok (undefined, None, vm)
  | Some f =>
      let vm := set_registers vm (replicate (Z.to_nat (register_count f)) undefined) in
      let vm := set_registers vm
                  (bind_parameters 0 args (parameter_count f) (registers_ vm)) in
      let vm := set_stack vm [] in
      match execute_loop (length (instructions f)) f 0 vm with
      | Ok (f, vm) =>
          match stack_ vm with
          | [] => Ok (undefined, Some f, vm)
          | _ :: _ =>
              match pop vm with
              | Ok (v, vm) => Ok (v, Some f, vm)
              | Undefined_behaviour => Undefined_behaviour
              | Out_of_fuel => Out_of_fuel
              end
          end
      | Undefined_behaviour => Undefined_behaviour
      | Out_of_fuel => Out_of_fuel
      end
  end.

(** ** BytecodeJITBridge *)

Definition compile_to_machine_code (function : option BytecodeFunction)
    : bool * option BytecodeFunction :=
  match function with
  | None => (false, None)
  | Some f =>
      if is_optimized f then (false, Some f)
      else (true, Some (set_optimized f 3))
  end.

(** ** The remaining members of [Bytecode.cpp] *)

(** [compile_node], [compile_expression] and [compile_statement] forward to
    [compile_node_simple]. *)
Definition compile_node (node : option ASTNode) (f : BytecodeFunction) :=
  compile_node_simple node f.

Definition compile_expression (node : option ASTNode) (f : BytecodeFunction) :=
  compile_node_simple node f.

Definition compile_statement (node : option ASTNode) (f : BytecodeFunction) :=
  compile_node_simple node f.

(** The passes whose bodies are empty. *)
Definition constant_folding_pass (f : BytecodeFunction) : BytecodeFunction := f.
Definition peephole_optimization_pass (f : BytecodeFunction) : BytecodeFunction := f.
Definition hot_path_optimization_pass (f : BytecodeFunction) : BytecodeFunction := f.

Definition execute_fast_add (left_ right_ : Value) : Value :=
  if is_number left_ && is_number right_
  then of_number (to_number left_ + to_number right_)%float
  else of_string (to_string left_ +:+ to_string right_).

(** [execute_instruction] forwards to [execute_instruction_simple]. *)
Definition execute_instruction (op : BytecodeOp) (f : BytecodeFunction)
    (pc : Z) (vm : BytecodeVM) : outcome (BytecodeFunction * BytecodeVM) :=
  execute_instruction_simple op f pc vm.

(** [should_jit_compile]. [HOT_SPOT_THRESHOLD] is a constant of
    [Bytecode.h] and is taken as a parameter. The loop visits every entry
    of [hot_spots] once; [total_hot_spots] is a [uint32_t]. *)
Definition should_jit_compile (HOT_SPOT_THRESHOLD : Z)
    (function : option BytecodeFunction) : bool :=
  match function with
  | None => false
  | Some f =>
      let total_hot_spots :=
        map_fold (fun (_ : Z) (count total : Z) =>
                    if HOT_SPOT_THRESHOLD <=? count then wrap32 (total + 1)
                    else total)
                 0 (hot_spots f) in
      3 <=? total_hot_spots
  end.

(** The interpreter loop read as a walk over the instructions still ahead:
    what [execute_loop] does from [pc] on when the function is not
    rewritten under it. *)
Fixpoint run_ops (ops : list BytecodeOp) (f : BytecodeFunction) (pc : Z)
    (vm : BytecodeVM) : outcome (BytecodeFunction * BytecodeVM) :=
  match ops with
  | [] => Ok (f, vm)
  | op :: rest =>
      match execute_instruction_simple op f pc vm with
      | Ok (f, vm) =>
          let vm := count_instruction vm in
          if is_return_or_halt op then Ok (f, vm)
          else run_ops rest f (pc + 1) vm
      | other => other
      end
  end.

(** Two interpreter states that differ at most in the count of retired
    instructions. *)
Definition same_but_retired (vm1 vm2 : BytecodeVM) : Prop :=
  stack_ vm1 = stack_ vm2
  /\ registers_ vm1 = registers_ vm2
  /\ profiling_enabled_ vm1 = profiling_enabled_ vm2
  /\ optimized_paths_taken (stats_ vm1) = optimized_paths_taken (stats_ vm2)
  /\ function_calls (stats_ vm1) = function_calls (stats_ vm2).


End Bytecode.

(** ** WasmMemory *)

Module WasmMemory.

(** Modelled from the spec: [PAGE_SIZE] is declared in [WebAssembly.h]; the
    page size is fixed at 65536 bytes. *)
Definition PAGE_SIZE : Z := 65536.

(** [ArrayBuffer.h]: the memory only asks its buffer for its length. *)
Record ArrayBuffer := { byte_length : Z }.

Record t := {
  initial_pages_ : Z;                   (* uint32_t *)
  maximum_pages_ : Z;                   (* uint32_t *)
  buffer_ : option ArrayBuffer          (* unique_ptr, None when null *)
}.

(** The constructor; [initial_bytes] is a [size_t] product. *)
Definition new (initial_pages maximum_pages : Z) : t :=
  let initial_bytes := initial_pages * PAGE_SIZE in
  {| initial_pages_ := initial_pages; maximum_pages_ := maximum_pages;
     buffer_ := Some {| byte_length := initial_bytes |} |}.

Definition size (m : t) : Z :=
  match buffer_ m with
  | Some b => wrap32 (byte_length b / PAGE_SIZE)
  | None => 0
  end.

Definition grow (m : t) (delta_pages : Z) : bool * t :=
  let new_pages := wrap32 (size m + delta_pages) in
  if maximum_pages_ m <? new_pages then (false, m)
  else (true, m).

End WasmMemory.

(** ** WasmModule: the binary decoder *)

Module WasmModule.

Record WasmSection := {
  id : Z;                               (* SectionId, cast from the byte *)
  size : Z;                             (* uint32_t *)
  data : list Byte.byte
}.

Record t := {
  binary_data_ : list Byte.byte;
  sections_ : list WasmSection;
  is_compiled_ : bool
}.

Definition new (binary_data : list Byte.byte) : t :=
  {| binary_data_ := binary_data; sections_ := []; is_compiled_ := false |}.

Definition set_sections (m : t) (ss : list WasmSection) : t :=
  {| binary_data_ := binary_data_ m; sections_ := ss;
     is_compiled_ := is_compiled_ m |}.

Definition set_compiled (m : t) : t :=
  {| binary_data_ := binary_data_ m; sections_ := sections_ m;
     is_compiled_ := true |}.

(** [binary_data_[i]]; [parse_header] runs only behind the size check of
    [parse_binary]. *)
Definition byte_at (bytes : list Byte.byte) (i : nat) : Z :=
  match bytes !! i with
  | Some b => byte_val b
  | None => 0
  end.

Definition parse_header (m : t) : bool :=
  let d := binary_data_ m in
  if negb (byte_at d 0 =? 0x00) || negb (byte_at d 1 =? 0x61) ||
     negb (byte_at d 2 =? 0x73) || negb (byte_at d 3 =? 0x6D) then false
  else if negb (byte_at d 4 =? 0x01) || negb (byte_at d 5 =? 0x00) ||
          negb (byte_at d 6 =? 0x00) || negb (byte_at d 7 =? 0x00) then false
  else true.

(** The loop of [read_leb128_u32] over the bytes in [[ptr, end)]. *)
Fixpoint read_leb128_u32_loop (ptr : list Byte.byte) (result shift : Z)
    : Z * list Byte.byte :=
  match ptr with
  | [] => (result, [])
  | b :: ptr =>
      let byte := byte_val b in
      let result := Z.lor result (wrap32 (Z.shiftl (Z.land byte 0x7F) shift)) in
      if Z.land byte 0x80 =? 0 then (result, ptr)
      else
        let shift := shift + 7 in
        if 32 <=? shift then (result, ptr)
        else read_leb128_u32_loop ptr result shift
  end.

Definition read_leb128_u32 (ptr : list Byte.byte) : Z * list Byte.byte :=
  read_leb128_u32_loop ptr 0 0.

Definition validate_module (m : t) : bool := true.

(** [parse_section]: [None] is [false]; on success the section and the
    advanced [ptr]. *)
Definition parse_section (ptr : list Byte.byte)
    : option (WasmSection * list Byte.byte) :=
  match ptr with
  | [] => None
  | b :: ptr =>
      let section_id := byte_val b in
      let '(section_size, ptr) := read_leb128_u32 ptr in
      if Z.of_nat (length ptr) <? section_size then None
      else
        Some ({| id := section_id; size := section_size;
                 data := take (Z.to_nat section_size) ptr |},
              drop (Z.to_nat section_size) ptr)
  end.

(** A value together with the equation that names it. *)
Definition inspect {A : Type} (a : A) : {b : A | a = b} := exist _ a eq_refl.

(** The [while (ptr < end)] loop of [parse_sections]: every accepted
    section is appended to [sections_]; the first refused one ends the loop
    with [false]. It terminates because a section takes at least its id
    byte. *)
Equations? parse_sections_loop (ptr : list Byte.byte) (m : t)
    : bool * t by wf (length ptr) lt :=
  parse_sections_loop [] m := (validate_module m, m);
  parse_sections_loop (b :: rest) m with inspect (parse_section (b :: rest)) := {
    | exist _ (Some (section, ptr')) _ =>
        parse_sections_loop ptr' (set_sections m (sections_ m ++ [section]));
    | exist _ None _ => (false, m) }.
Proof.
  assert (Hleb : forall l r s,
             (length (read_leb128_u32_loop l r s).2 <= length l)%nat).
  { clear. induction l as [|x l IH]; intros r s; simpl; [lia|].
    destruct (Z.land _ _ =? 0); [simpl; lia|].
    destruct (32 <=? _); [simpl; lia|].
    etransitivity; [apply IH | lia]. }
  simpl in e. unfold read_leb128_u32 in e.
  specialize (Hleb rest 0 0).
  destruct (read_leb128_u32_loop rest 0 0) as [sz p]. simpl in Hleb.
  destruct (Z.of_nat (length p) <? sz); [discriminate|].
  injection e as _ <-.
  rewrite length_drop. simpl. lia.
Qed.

Definition parse_sections (m : t) : bool * t :=
  let ptr := drop 8 (binary_data_ m) in
  let m := set_sections m [] in
  parse_sections_loop ptr m.

Definition parse_binary (m : t) : bool * t :=
  if Z.of_nat (length (binary_data_ m)) <? 8 then (false, m)
  else if negb (parse_header m) then (false, m)
  else parse_sections m.

Definition compile (m : t) : bool * t :=
  if is_compiled_ m then (true, m)
  else
    let '(ok, m) := parse_binary m in
    if negb ok then (false, m)
    else (true, set_compiled m).

(** [read_leb128_i32] of the decoder: the [do ... while] loop, without sign
    extension. *)
Fixpoint read_leb128_i32_loop (ptr : list Byte.byte) (result shift : Z)
    : Z * list Byte.byte :=
  match ptr with
  | [] => (result, [])
  | b :: ptr =>
      let byte := byte_val b in
      let result := Z.lor result (sint32 (Z.shiftl (Z.land byte 0x7F) shift)) in
      let shift := shift + 7 in
      if negb (Z.land byte 0x80 =? 0) && (shift <? 32)
      then read_leb128_i32_loop ptr result shift
      else (result, ptr)
  end.

Definition read_leb128_i32 (ptr : list Byte.byte) : Z * list Byte.byte :=
  read_leb128_i32_loop ptr 0 0.

(** [read_string]: a length field, then that many bytes. When the length
    runs past the end the empty string is returned, with [ptr] left behind
    the length field. *)
Definition read_string (ptr : list Byte.byte) : string * list Byte.byte :=
  let '(length_, ptr) := read_leb128_u32 ptr in
  if Z.of_nat (length ptr) <? length_ then (EmptyString, ptr)
  else (String.string_of_list_byte (take (Z.to_nat length_) ptr),
        drop (Z.to_nat length_) ptr).

(** The header [parse_header] checks for: the magic number "\0asm" and
    version 1. *)
Definition WASM_MAGIC : list Byte.byte := [Byte.x00; Byte.x61; Byte.x73; Byte.x6d].
Definition WASM_VERSION : list Byte.byte := [Byte.x01; Byte.x00; Byte.x00; Byte.x00].

(** [section_start ptr q]: reading whole sections from [ptr], one after the
    other, the decoder arrives at [q]. *)
Inductive section_start : list Byte.byte -> list Byte.byte -> Prop :=
| start_here ptr : section_start ptr ptr
| start_after ptr section ptr' q :
    parse_section ptr = Some (section, ptr') ->
    section_start ptr' q ->
    section_start ptr q.

End WasmModule.

(** ** WasmValue

    [WasmValue] is declared in [WebAssembly.h], which is not part of the
    sources at hand: a numeric union with members [i32], [f32] and [f64]. The
    interpreter uses the default constructor, the three converting
    constructors, the three member reads and one member write. *)

Class WasmValueRep := {
  WasmValue : Type;
  wv_default : WasmValue;                    (* WasmValue() *)
  wv_of_i32 : Z -> WasmValue;                (* WasmValue(int32_t) *)
  wv_of_f32 : spec_float -> WasmValue;       (* WasmValue(float) *)
  wv_of_f64 : float -> WasmValue;            (* WasmValue(double) *)
  i32 : WasmValue -> Z;                      (* v.i32 *)
  f32 : WasmValue -> spec_float;             (* v.f32 *)
  f64 : WasmValue -> float;                  (* v.f64 *)
  set_i32 : WasmValue -> Z -> WasmValue      (* v.i32 = z *)
}.

(** An [i32] written is the [i32] read, and a default value reads as zero
    (the interpreter's own comment: "return top of stack or 0"). *)
Class WasmValueLaws (R : WasmValueRep) : Prop := {
  i32_of_i32 : forall z, INT32_MIN <= z <= INT32_MAX -> i32 (wv_of_i32 z) = z;
  i32_set_i32 : forall v z, INT32_MIN <= z <= INT32_MAX -> i32 (set_i32 v z) = z;
  i32_default : i32 wv_default = 0
}.

(** Binary32 addition. *)
Definition f32_add (a b : spec_float) : spec_float := SFadd 24 128 a b.

(** *** A reference representation: one slot per member. *)

Module RefWasmValue.

Record cell := {
  cell_i32 : Z;
  cell_f32 : spec_float;
  cell_f64 : float
}.

Definition rep : WasmValueRep := {|
  WasmValue := cell;
  wv_default := {| cell_i32 := 0; cell_f32 := S754_zero false; cell_f64 := 0%float |};
  wv_of_i32 := fun z => {| cell_i32 := z; cell_f32 := S754_zero false; cell_f64 := 0%float |};
  wv_of_f32 := fun x => {| cell_i32 := 0; cell_f32 := x; cell_f64 := 0%float |};
  wv_of_f64 := fun x => {| cell_i32 := 0; cell_f32 := S754_zero false; cell_f64 := x |};
  i32 := cell_i32;
  f32 := cell_f32;
  f64 := cell_f64;
  set_i32 := fun v z => {| cell_i32 := z; cell_f32 := cell_f32 v; cell_f64 := cell_f64 v |}
|}.

End RefWasmValue.

(** ** WasmVM: the module interpreter *)

Module WasmVM.

(** Modelled from the spec: the [Opcode] enumeration is declared in
    [WebAssembly.h]. The byte values of [LOCAL_GET], [I32_CONST], [I32_ADD],
    [I32_MUL] and [RETURN] are the ones the export templates spell out; the
    others are those of the WebAssembly binary format. [UNSUPPORTED] stands
    for every other byte. *)
Inductive Opcode :=
| NOP | END | RETURN | LOCAL_GET | LOCAL_SET | I32_CONST
| I32_ADD | I32_SUB | I32_MUL | F32_ADD | F64_ADD
| UNSUPPORTED.

Definition opcode_of_byte (b : Byte.byte) : Opcode :=
  let c := byte_val b in
  if c =? 0x01 then NOP
  else if c =? 0x0B then END
  else if c =? 0x0F then RETURN
  else if c =? 0x20 then LOCAL_GET
  else if c =? 0x21 then LOCAL_SET
  else if c =? 0x41 then I32_CONST
  else if c =? 0x6A then I32_ADD
  else if c =? 0x6B then I32_SUB
  else if c =? 0x6C then I32_MUL
  else if c =? 0x92 then F32_ADD
  else if c =? 0xA0 then F64_ADD
  else UNSUPPORTED.

Fixpoint read_leb128_u32_loop (pc : list Byte.byte) (result shift : Z)
    : Z * list Byte.byte :=
  match pc with
  | [] => (result, [])
  | b :: pc =>
      let byte := byte_val b in
      let result := Z.lor result (wrap32 (Z.shiftl (Z.land byte 0x7F) shift)) in
      if Z.land byte 0x80 =? 0 then (result, pc)
      else
        let shift := shift + 7 in
        if 32 <=? shift then (result, pc)
        else read_leb128_u32_loop pc result shift
  end.

Definition read_leb128_u32 (pc : list Byte.byte) : Z * list Byte.byte :=
  read_leb128_u32_loop pc 0 0.

(** The [do ... while] loop of [read_leb128_i32]; no sign extension is
    applied to the last group. *)
Fixpoint read_leb128_i32_loop (pc : list Byte.byte) (result shift : Z)
    : Z * list Byte.byte :=
  match pc with
  | [] => (result, [])
  | b :: pc =>
      let byte := byte_val b in
      let result := Z.lor result (sint32 (Z.shiftl (Z.land byte 0x7F) shift)) in
      let shift := shift + 7 in
      if negb (Z.land byte 0x80 =? 0) && (shift <? 32)
      then read_leb128_i32_loop pc result shift
      else (result, pc)
  end.

Definition read_leb128_i32 (pc : list Byte.byte) : Z * list Byte.byte :=
  read_leb128_i32_loop pc 0 0.

Section Interpreter.

Context {host : HostValue} {rep : WasmValueRep}.

Record ExecutionFrame := {
  pc : list Byte.byte;                  (* the bytes in [pc, end) *)
  locals : list WasmValue;
  stack : list WasmValue                (* head is back() *)
}.

Definition set_pc (frame : ExecutionFrame) (p : list Byte.byte) :=
  {| pc := p; locals := locals frame; stack := stack frame |}.

Definition set_frame_stack (frame : ExecutionFrame) (s : list WasmValue) :=
  {| pc := pc frame; locals := locals frame; stack := s |}.

Definition set_locals (frame : ExecutionFrame) (l : list WasmValue) :=
  {| pc := pc frame; locals := l; stack := stack frame |}.

Definition handle_i32_const (frame : ExecutionFrame) : bool * ExecutionFrame :=
  let '(value, p) := read_leb128_i32 (pc frame) in
  let frame := set_pc frame p in
  (true, set_frame_stack frame (wv_of_i32 value :: stack frame)).

Definition handle_i32_add (frame : ExecutionFrame) : bool * ExecutionFrame :=
  match stack frame with
  | b :: a :: rest =>
      (true, set_frame_stack frame (wv_of_i32 (sint32 (i32 a + i32 b)) :: rest))
  | _ => (false, frame)
  end.

Definition handle_i32_sub (frame : ExecutionFrame) : bool * ExecutionFrame :=
  match stack frame with
  | b :: a :: rest =>
      (true, set_frame_stack frame (wv_of_i32 (sint32 (i32 a - i32 b)) :: rest))
  | _ => (false, frame)
  end.

Definition handle_i32_mul (frame : ExecutionFrame) : bool * ExecutionFrame :=
  match stack frame with
  | b :: a :: rest =>
      (true, set_frame_stack frame (wv_of_i32 (sint32 (i32 a * i32 b)) :: rest))
  | _ => (false, frame)
  end.

Definition handle_f32_add (frame : ExecutionFrame) : bool * ExecutionFrame :=
  match stack frame with
  | b :: a :: rest =>
      (true, set_frame_stack frame (wv_of_f32 (f32_add (f32 a) (f32 b)) :: rest))
  | _ => (false, frame)
  end.

Definition handle_f64_add (frame : ExecutionFrame) : bool * ExecutionFrame :=
  match stack frame with
  | b :: a :: rest =>
      (true, set_frame_stack frame (wv_of_f64 (f64 a + f64 b)%float :: rest))
  | _ => (false, frame)
  end.

(** [local_index >= frame.locals.size()] holds exactly when the lookup
    finds nothing. *)
Definition handle_local_get (frame : ExecutionFrame) : bool * ExecutionFrame :=
  let '(local_index, p) := read_leb128_u32 (pc frame) in
  let frame := set_pc frame p in
  match locals frame !! Z.to_nat local_index with
  | None => (false, frame)
  | Some v => (true, set_frame_stack frame (v :: stack frame))
  end.

Definition handle_local_set (frame : ExecutionFrame) : bool * ExecutionFrame :=
  let '(local_index, p) := read_leb128_u32 (pc frame) in
  let frame := set_pc frame p in
  if (Z.of_nat (length (locals frame)) <=? local_index) then (false, frame)
  else
    match stack frame with
    | [] => (false, frame)
    | v :: rest =>
        (true, set_frame_stack
                 (set_locals frame (<[Z.to_nat local_index := v]> (locals frame)))
                 rest)
    end.

Definition handle_return (frame : ExecutionFrame) : bool * ExecutionFrame :=
  (false, frame).

Definition execute_instruction (frame : ExecutionFrame) : bool * ExecutionFrame :=
  match pc frame with
  | [] => (false, frame)
  | b :: p =>
      let frame := set_pc frame p in
      match opcode_of_byte b with
      | NOP => (true, frame)
      | I32_CONST => handle_i32_const frame
      | I32_ADD => handle_i32_add frame
      | I32_SUB => handle_i32_sub frame
      | I32_MUL => handle_i32_mul frame
      | F32_ADD => handle_f32_add frame
      | F64_ADD => handle_f64_add frame
      | LOCAL_GET => handle_local_get frame
      | LOCAL_SET => handle_local_set frame
      | RETURN => handle_return frame
      | END => (false, frame)
      | UNSUPPORTED => (true, frame)
      end
  end.

(** The value a finished frame hands to the host:
    [Value(static_cast<double>(result.i32))], where [result] is the top of the
    frame's stack, or a default [WasmValue] when the stack is empty. *)
Definition frame_result (frame : ExecutionFrame) : Value :=
  let result := match stack frame with
                | [] => wv_default
                | top :: _ => top
                end in
  of_number (double_of_int (i32 result)).

(** One argument to one local. *)
Definition local_of_arg (arg : Value) : WasmValue :=
  if is_number arg then set_i32 wv_default (int_of_double (as_number arg))
  else wv_default.

(** The [while (!call_stack_.empty())] loop; the head of [call_stack] is
    [call_stack_.back()]. Falling out of the loop is [return Value()]. *)
Fixpoint execute_loop (fuel : nat) (call_stack : list ExecutionFrame)
    : outcome (Value * list ExecutionFrame) :=
  match call_stack with
  | [] => Ok (undefined, [])
  | current_frame :: below =>
      match pc current_frame with
      | [] => Ok (frame_result current_frame, below)
      | _ :: _ =>
          match fuel with
          | O => Out_of_fuel
          | S fuel' =>
              let '(continue, current_frame) := execute_instruction current_frame in
              if continue then execute_loop fuel' (current_frame :: below)
              else Ok (frame_result current_frame, below)
          end
      end
  end.

(** [execute_function], on the interpreter's [call_stack_]. Every round of
    the loop that goes on has consumed a byte, so the length of the code is
    budget enough. *)
Definition execute_function (call_stack_ : list ExecutionFrame)
    (bytecode : list Byte.byte) (args : list Value)
    : outcome (Value * list ExecutionFrame) :=
  match bytecode with
  | [] => Ok (undefined, call_stack_)
  | _ :: _ =>
      let frame := {| pc := bytecode; locals := local_of_arg <$> args; stack := [] |} in
      execute_loop (length bytecode) (frame :: call_stack_)
  end.

(** [halts_at frame final]: started on [frame], the interpreter executes
    instructions until it stops on [final], at the end of the code or at an
    instruction that returns [false]. *)
Inductive halts_at : ExecutionFrame -> ExecutionFrame -> Prop :=
| halts_end frame :
    pc frame = [] -> halts_at frame frame
| halts_stop frame final :
    pc frame <> [] ->
    execute_instruction frame = (false, final) ->
    halts_at frame final
| halts_step frame frame' final :
    pc frame <> [] ->
    execute_instruction frame = (true, frame') ->
    halts_at frame' final ->
    halts_at frame final.

End Interpreter.

End WasmVM.

(** ** WasmInstance *)

Module WasmInstance.

Import Byte.

Section Instance.

Context {host : HostValue} {rep : WasmValueRep}.

(** The interpreter is held through [vm_]; of its members only the call
    stack is state the exports touch. *)
Record t := {
  module_ : option WasmModule.t;
  memory_ : option WasmMemory.t;
  vm_ : option (list WasmVM.ExecutionFrame)
}.

Definition instantiate (inst : t) : bool * t :=
  match module_ inst with
  | None => (false, inst)
  | Some m =>
      if negb (WasmModule.is_compiled_ m) then (false, inst)
      else
        let memory := match memory_ inst with
                      | None => Some (WasmMemory.new 1 1024)
                      | Some mem => Some mem
                      end in
        let vm := match vm_ inst with
                  | None => Some []
                  | Some cs => Some cs
                  end in
        (true, {| module_ := module_ inst; memory_ := memory; vm_ := vm |})
  end.

Definition add_template : list byte := [x20; x00; x20; x01; x6a; x0f].
Definition multiply_template : list byte := [x20; x00; x20; x01; x6c; x0f].
Definition const42_template : list byte := [x41; x2a; x0f].

Definition run_template (inst : t) (call_stack : list WasmVM.ExecutionFrame)
    (bytecode : list byte) (args : list Value) : outcome (Value * t) :=
  match WasmVM.execute_function call_stack bytecode args with
  | Ok (v, cs) =>
      Ok (v, {| module_ := module_ inst; memory_ := memory_ inst; vm_ := Some cs |})
  | Undefined_behaviour => Undefined_behaviour
  | Out_of_fuel => Out_of_fuel
  end.

Definition call_exported_function (inst : t) (name : string) (args : list Value)
    : outcome (Value * t) :=
  match vm_ inst, module_ inst with
  | Some call_stack, Some m =>
      if negb (WasmModule.is_compiled_ m) then Ok (undefined, inst)
      else if String.eqb name "add" then run_template inst call_stack add_template args
      else if String.eqb name "multiply" then run_template inst call_stack multiply_template args
      else if String.eqb name "const42" then run_template inst call_stack const42_template args
      else Ok (undefined, inst)
  | _, _ => Ok (undefined, inst)
  end.

End Instance.

End WasmInstance.


(** ** Sample inputs

    Concrete functions, modules and instances the properties below are
    evaluated on. *)

(** The function with the single instruction [RETURN]. *)
Definition single_return {host : HostValue} : BytecodeFunction :=
  emit (new_function "f") RETURN [].

(** A function as [optimize_bytecode] leaves it at level 2. *)
Definition tier2_function : @BytecodeFunction RefHost.host :=
  set_optimized (new_function "f") 2.

(** A valid header, a whole section (id 1, two payload bytes), and then a
    section (id 2) declaring 10 bytes with 4 left. *)
Definition truncated_module_bytes : list Byte.byte :=
  WasmModule.WASM_MAGIC ++ WasmModule.WASM_VERSION
  ++ [Byte.x01; Byte.x02; Byte.xaa; Byte.xbb]
  ++ [Byte.x02; Byte.x0a; Byte.x00; Byte.x00; Byte.x00; Byte.x00].

(** An instance as [WasmInstance::constructor] leaves it: the default module
    compiled, the default memory, an interpreter with an empty call stack. *)
Definition default_instance : @WasmInstance.t RefWasmValue.rep :=
  {| WasmInstance.module_ :=
       Some (WasmModule.compile
               (WasmModule.new (WasmModule.WASM_MAGIC ++ WasmModule.WASM_VERSION))).2;
     WasmInstance.memory_ := Some (WasmMemory.new 1 1024);
     WasmInstance.vm_ := Some [] |}.

(** A function with a [NOP] in front of a [CALL] and a [RETURN], and
    nothing behind the [RETURN]; and the same with a second [CALL] behind
    the [RETURN]. *)
Definition nop_call_function : @BytecodeFunction RefHost.host :=
  emit (emit (emit (new_function "f") NOP [])
          CALL [{| operand_type := IMMEDIATE; value := 0 |}])
       RETURN [].

Definition early_return_function : @BytecodeFunction RefHost.host :=
  emit nop_call_function CALL [{| operand_type := IMMEDIATE; value := 0 |}].

(** A function with three registers and two parameters. *)
Definition two_parameter_function : @BytecodeFunction RefHost.host :=
  {| function_name := "g";
     instructions := [{| instruction := RETURN; operands := [] |}];
     constants := []; register_count := 3; parameter_count := 2;
     hot_spots := ∅; is_optimized := false; optimization_level := 0 |}.

(** A function whose addresses 0, 1 and 2 have each been executed 5 times. *)
Definition hot_function : @BytecodeFunction RefHost.host :=
  set_hot_spots (new_function "h") (<[2 := 5]> (<[1 := 5]> {[0 := 5]})).

(** * Properties *)

(** ** The reference host and the reference [WasmValue] obey their laws *)

Lemma RefHost_laws : HostValueLaws RefHost.host.
Proof. split; reflexivity. Qed.

Lemma RefWasmValue_laws : WasmValueLaws RefWasmValue.rep.
Proof. split; reflexivity. Qed.

(** ** Machine integers *)

Lemma sint32_range z : INT32_MIN <= sint32 z <= INT32_MAX.
Proof.
  unfold sint32, INT32_MIN, INT32_MAX.
  pose proof (Z.mod_pos_bound (z + 2 ^ 31) (2 ^ 32)). lia.
Qed.

Lemma sint32_congruent z : (sint32 z - z) mod 2 ^ 32 = 0.
Proof.
  unfold sint32.
  rewrite (Z.mod_eq (z + 2 ^ 31) (2 ^ 32)) by lia.
  replace (z + 2 ^ 31 - 2 ^ 32 * ((z + 2 ^ 31) / 2 ^ 32) - 2 ^ 31 - z)
    with (- ((z + 2 ^ 31) / 2 ^ 32) * 2 ^ 32) by lia.
  apply Z.mod_mul. lia.
Qed.

Lemma sint32_small z : INT32_MIN <= z <= INT32_MAX -> sint32 z = z.
Proof.
  unfold sint32, INT32_MIN, INT32_MAX. intros Hz.
  rewrite Z.mod_small; lia.
Qed.

Lemma byte_val_range b : 0 <= byte_val b < 256.
Proof.
  unfold byte_val. pose proof (Byte.to_N_bounded b). lia.
Qed.

Lemma byte_val_inj b c : byte_val b = byte_val c -> b = c.
Proof.
  unfold byte_val. intros H. apply N2Z.inj in H.
  pose proof (Byte.of_to_N b) as Hb. pose proof (Byte.of_to_N c) as Hc.
  rewrite H in Hb. congruence.
Qed.

(** ** Bytecode compiler, interpreter and JIT bridge *)

Section BytecodeProperties.

Context {host : HostValue}.

Lemma remove_nops_idempotent (ops : list BytecodeOp) :
  remove_nops (remove_nops ops) = remove_nops ops.
Proof.
  unfold remove_nops. induction ops as [|op ops IH]; simpl; [reflexivity|].
  destruct (negb (instruction_eqb (instruction op) NOP)) eqn:E; simpl.
  - rewrite E, IH. reflexivity.
  - exact IH.
Qed.

Lemma remove_nops_no_nop (ops : list BytecodeOp) (op : BytecodeOp) :
  In op (remove_nops ops) -> instruction op <> NOP.
Proof.
  unfold remove_nops. rewrite filter_In. intros [_ H] E.
  rewrite E in H. discriminate.
Qed.

Lemma remove_nops_keeps (ops : list BytecodeOp) (op : BytecodeOp) :
  In op ops -> instruction op <> NOP -> In op (remove_nops ops).
Proof.
  unfold remove_nops. rewrite filter_In. intros Hin Hne. split; [assumption|].
  destruct (instruction op); simpl; congruence.
Qed.

(** C8: the optimization pipeline is idempotent. The dead-code pass run on
    its own output changes nothing; [optimize_bytecode] run twice at one
    level yields the function it yields when run once; two runs at the
    compiler's level 2 leave exactly the instruction sequence of one
    dead-code pass; and what [compile] returns with optimizations enabled
    is already a fixed point of [optimize_bytecode] at that level. *)
Theorem optimization_pipeline_idempotent (f : BytecodeFunction) (level : Z) :
  dead_code_elimination_pass (dead_code_elimination_pass f)
    = dead_code_elimination_pass f
  /\ optimize_bytecode (optimize_bytecode (Some f) level) level
     = optimize_bytecode (Some f) level
  /\ instructions <$> optimize_bytecode (optimize_bytecode (Some f) 2) 2
     = Some (instructions (dead_code_elimination_pass f))
  /\ (forall c ast name, exists g c',
        compile c (Some ast) name = (Some g, c')
        /\ (optimization_enabled_ c = true ->
            optimize_bytecode (Some g) 2 = Some g
            /\ instructions (dead_code_elimination_pass g) = instructions g)).
Proof.
  repeat split.
  - unfold dead_code_elimination_pass, set_instructions; simpl.
    rewrite remove_nops_idempotent. reflexivity.
  - unfold optimize_bytecode. destruct (level =? 0) eqn:E; [reflexivity|].
    unfold set_optimized, set_instructions; simpl.
    rewrite remove_nops_idempotent. reflexivity.
  - simpl. rewrite remove_nops_idempotent. reflexivity.
  - intros c ast name. unfold compile.
    change (optimization_enabled_ (reset_registers c)) with (optimization_enabled_ c).
    generalize (compile_node_simple (Some ast) (new_function name)); intros f0.
    generalize (if ends_in_return (instructions f0) then f0 else emit f0 RETURN []).
    intros f1. eexists _, _. split; [reflexivity|]. intros ->.
    unfold optimize_bytecode, dead_code_elimination_pass, set_register_count,
      set_optimized, set_instructions; simpl.
    rewrite remove_nops_idempotent. split; reflexivity.
Qed.

(** *** Promotion *)

(** C2 (as amended): [compile_to_machine_code] is guarded by the
    function's [is_optimized] flag, not by its tier. It fails exactly when
    the flag is set, and then changes nothing; otherwise it succeeds, sets
    the flag and tier 3 and touches nothing else, and a second call on the
    result fails and changes nothing. A function that [optimize_bytecode]
    has processed at any level other than 0 is therefore refused. *)
Theorem promote_guarded_by_optimized_flag (f : BytecodeFunction) :
  let r := compile_to_machine_code (Some f) in
  (r.1 = false <-> is_optimized f = true)
  /\ (r.1 = false -> r.2 = Some f)
  /\ (r.1 = true ->
      r.2 = Some (set_optimized f 3)
      /\ optimization_level (set_optimized f 3) = 3
      /\ instructions (set_optimized f 3) = instructions f
      /\ constants (set_optimized f 3) = constants f
      /\ hot_spots (set_optimized f 3) = hot_spots f
      /\ compile_to_machine_code r.2 = (false, r.2))
  /\ (forall level, level <> 0 ->
      exists g, optimize_bytecode (Some f) level = Some g
                /\ optimization_level g = level
                /\ compile_to_machine_code (Some g) = (false, Some g)).
Proof.
  unfold compile_to_machine_code. simpl.
  destruct (is_optimized f) eqn:E; simpl; repeat split; try congruence; auto.
  - intros level Hl. unfold optimize_bytecode.
    apply Z.eqb_neq in Hl. rewrite Hl. eexists. repeat split.
  - intros level Hl. unfold optimize_bytecode.
    apply Z.eqb_neq in Hl. rewrite Hl. eexists. repeat split.
Qed.

(** *** One instruction *)

Lemma execute_instruction_simple_keeps_function (op : BytecodeOp)
    (f : BytecodeFunction) (pc : Z) (vm : BytecodeVM) :
  exists vm', execute_instruction_simple op f pc vm = Ok (f, vm').
Proof.
  unfold execute_instruction_simple.
  destruct (instruction op); try (eexists; reflexivity).
  - destruct (operands op) as [|o os]; [eexists; reflexivity|].
    destruct (value o <? N.of_nat (length (constants f)))%N eqn:E;
      [|eexists; reflexivity].
    apply N.ltb_lt in E.
    destruct (lookup_lt_is_Some_2 (constants f) (N.to_nat (value o))) as [c Hc];
      [lia|].
    rewrite Hc. eexists; reflexivity.
  - destruct (2 <=? Z.of_nat (length (stack_ vm))) eqn:E;
      [|eexists; reflexivity].
    apply Z.leb_le in E. unfold pop.
    destruct (stack_ vm) as [|b [|a rest]]; simpl in E; try lia.
    simpl. eexists; reflexivity.
Qed.

(** C9: a constant-pool index that is out of bounds makes the instruction a
    no-op. No instruction ever reads outside a container: every instruction
    yields a state, with the function untouched. A [LOAD_CONST] with no
    operand, or whose index is not below the pool's size, leaves the whole
    interpreter state (operand stack included) as it was; one whose index is
    in bounds pushes exactly that constant. *)
Theorem constant_index_out_of_bounds_is_noop (op : BytecodeOp)
    (f : BytecodeFunction) (pc : Z) (vm : BytecodeVM) :
  (exists vm', execute_instruction_simple op f pc vm = Ok (f, vm'))
  /\ (instruction op = LOAD_CONST -> operands op = [] ->
      execute_instruction_simple op f pc vm = Ok (f, vm))
  /\ (forall o os, instruction op = LOAD_CONST -> operands op = o :: os ->
      (N.of_nat (length (constants f)) <= value o)%N ->
      execute_instruction_simple op f pc vm = Ok (f, vm))
  /\ (forall o os, instruction op = LOAD_CONST -> operands op = o :: os ->
      (value o < N.of_nat (length (constants f)))%N ->
      exists c, constants f !! N.to_nat (value o) = Some c
                /\ execute_instruction_simple op f pc vm = Ok (f, push c vm)).
Proof.
  split; [apply execute_instruction_simple_keeps_function|].
  unfold execute_instruction_simple. repeat split.
  - intros -> ->. reflexivity.
  - intros o os -> -> Hge. apply N.ltb_ge in Hge. rewrite Hge. reflexivity.
  - intros o os -> -> Hlt.
    destruct (lookup_lt_is_Some_2 (constants f) (N.to_nat (value o))) as [c Hc];
      [lia|].
    apply N.ltb_lt in Hlt. rewrite Hlt, Hc. eauto.
Qed.

(** C4: [ADD] on a stack of at least two values pops [b] (the top), then
    [a], and pushes the numeric sum [a + b] when both are numbers and the
    concatenation of their strings otherwise; the rest of the stack stays.
    With a host whose values read back what they were built from and that
    prints 3 as "3": (3, 4) gives 7, ("a", "b") gives "ab", (3, "b") gives
    "3b". *)
Theorem ADD_semantics (laws : HostValueLaws host)
    (three : to_string (of_number 3) = "3")
    (ops : list BytecodeOperand) (f : BytecodeFunction) (pc : Z)
    (vm : BytecodeVM) (rest : list Value) :
  let add := {| instruction := ADD; operands := ops |} in
  let result top := Ok (f, count_optimized_path (set_stack vm (top :: rest))) in
  (forall a b,
     execute_instruction_simple add f pc (set_stack vm (b :: a :: rest))
     = result (if is_number a && is_number b
               then of_number (to_number a + to_number b)%float
               else of_string (to_string a +:+ to_string b)))
  /\ execute_instruction_simple add f pc
       (set_stack vm (of_number 4 :: of_number 3 :: rest))
     = result (of_number 7)
  /\ execute_instruction_simple add f pc
       (set_stack vm (of_string "b" :: of_string "a" :: rest))
     = result (of_string "ab")
  /\ execute_instruction_simple add f pc
       (set_stack vm (of_string "b" :: of_number 3 :: rest))
     = result (of_string "3b").
Proof.
  intros add result.
  assert (G : forall a b,
     execute_instruction_simple add f pc (set_stack vm (b :: a :: rest))
     = result (if is_number a && is_number b
               then of_number (to_number a + to_number b)%float
               else of_string (to_string a +:+ to_string b))).
  { intros a b. unfold execute_instruction_simple, add, result.
    cbn [instruction stack_ set_stack].
    replace (2 <=? Z.of_nat (length (b :: a :: rest))) with true
      by (symmetry; apply Z.leb_le; simpl length; lia).
    unfold pop. cbn [stack_ set_stack].
    destruct (is_number a && is_number b); reflexivity. }
  split; [exact G|]. repeat split; rewrite G.
  - rewrite !is_number_of_number, !to_number_of_number. reflexivity.
  - rewrite !is_number_of_string, !to_string_of_string. reflexivity.
  - rewrite is_number_of_string, andb_false_r, to_string_of_string, three.
    reflexivity.
Qed.

(** *** The interpreter loop *)

Lemma execute_loop_keeps_function (fuel : nat) :
  forall (f : BytecodeFunction) (pc : Z) (vm : BytecodeVM),
    0 <= pc ->
    Z.of_nat (length (instructions f)) < 2 ^ 32 ->
    Z.of_nat (length (instructions f)) - pc <= Z.of_nat fuel ->
    exists vm', execute_loop fuel f pc vm = Ok (f, vm').
Proof.
  induction fuel as [|fuel IH]; intros f pc vm Hpc Hlen Hfuel.
  - simpl. destruct (pc <? _) eqn:E; [apply Z.ltb_lt in E; lia|]. eauto.
  - simpl. destruct (pc <? _) eqn:E; [|eauto].
    apply Z.ltb_lt in E.
    destruct (lookup_lt_is_Some_2 (instructions f) (Z.to_nat pc)) as [op Hop];
      [lia|].
    rewrite Hop.
    destruct (execute_instruction_simple_keeps_function op f pc vm) as [vm1 ->].
    destruct (is_return_or_halt op); [eauto|].
    assert (Hw : wrap32 (pc + 1) = pc + 1)
      by (unfold wrap32; apply Z.mod_small; lia).
    rewrite Hw. apply IH; lia.
Qed.

(** [execute] always returns, and the function object it was given is the
    one it leaves behind: nothing in it is written, [hot_spots] included. *)
Lemma execute_keeps_function (f : BytecodeFunction) (args : list Value)
    (vm : BytecodeVM) :
  Z.of_nat (length (instructions f)) < 2 ^ 32 ->
  exists v vm', execute (Some f) args vm = Ok (v, Some f, vm').
Proof.
  intros Hlen. unfold execute.
  edestruct (execute_loop_keeps_function (length (instructions f)) f 0) as [vm1 ->];
    [lia | exact Hlen | lia |].
  unfold pop. destruct (stack_ vm1); eauto.
Qed.

(** C3: evaluated on a one-instruction function. [execute] retires the
    [RETURN] at address 0 (the instruction counter of the interpreter goes
    from 0 to 1), yet the function comes back as it went in, with no
    [hot_spots] entry at address 0; [record_execution], which performs the
    per-retirement increment, would have left the count 1 there. The
    same holds on every function: [execute] returns and hands back the
    function it was given, its [hot_spots] as they were. *)
Theorem execute_does_not_record :
  (exists vm',
     execute (Some single_return) [] new_vm = Ok (undefined, Some single_return, vm')
     /\ instructions_executed (stats_ vm') = 1)
  /\ hot_spots single_return !! 0 = None
  /\ (exists g, record_execution (Some single_return) 0 = Some g
                /\ hot_spots g !! 0 = Some 1)
  /\ (forall f args vm,
        Z.of_nat (length (instructions f)) < 2 ^ 32 ->
        exists v vm', execute (Some f) args vm = Ok (v, Some f, vm')).
Proof.
  repeat split.
  - eexists. split; reflexivity.
  - eexists. split; reflexivity.
  - apply execute_keeps_function.
Qed.

End BytecodeProperties.

(** *** Closed instances *)

(** C2, counterexample: a function that [optimize_bytecode] left at tier 2
    is not at tier 3, and promotion is refused all the same. *)
Lemma promote_refuses_tier2 :
  optimize_bytecode (Some (new_function "f")) 2 = Some tier2_function
  /\ optimization_level tier2_function <> 3
  /\ compile_to_machine_code (Some tier2_function) = (false, Some tier2_function).
Proof. repeat split. discriminate. Qed.

(** [ADD] on (3, "b") in the reference host. *)
Lemma ADD_semantics_witness :
  execute_instruction_simple (host := RefHost.host)
    {| instruction := ADD; operands := [] |} (new_function "f") 0
    (set_stack new_vm [of_string "b"; of_number 3])
  = Ok (new_function "f",
        count_optimized_path (set_stack new_vm [of_string "3b"])).
Proof.
  exact (proj2 (proj2 (proj2
    (ADD_semantics (host := RefHost.host) RefHost_laws eq_refl
       [] (new_function "f") 0 new_vm [])))).
Defined.

(** ** Linear memory *)

Lemma grow_never_changes_memory (m : WasmMemory.t) (delta_pages : Z) :
  (WasmMemory.grow m delta_pages).2 = m.
Proof. unfold WasmMemory.grow. destruct (_ <? _); reflexivity. Qed.

(** C1: evaluated on the instance's default memory (1 page, at most 1024).
    [grow(1)] is within the bound and returns success, yet the memory is the
    one it was and its size is still 1 page, not 2. *)
Theorem grow_reports_success_without_growing :
  WasmMemory.size (WasmMemory.new 1 1024) = 1
  /\ WasmMemory.grow (WasmMemory.new 1 1024) 1 = (true, WasmMemory.new 1 1024)
  /\ WasmMemory.size (WasmMemory.grow (WasmMemory.new 1 1024) 1).2 = 1.
Proof. repeat split. Qed.

(** The sum [size() + delta_pages] is taken in 32 bits: a delta that wraps
    it around is accepted. *)
Lemma grow_accepts_wrapping_delta :
  WasmMemory.grow (WasmMemory.new 1 1024) (2 ^ 32 - 1)
  = (true, WasmMemory.new 1 1024).
Proof. reflexivity. Qed.

(** The constructor does not compare the initial size with the maximum. *)
Lemma new_memory_may_exceed_maximum :
  WasmMemory.size (WasmMemory.new 2000 1024) = 2000.
Proof. reflexivity. Qed.

(** ** The module decoder *)

Section DecoderProperties.

Import WasmModule.

Lemma byte_val_eqb (b c : Byte.byte) :
  (byte_val b =? byte_val c) = true <-> b = c.
Proof.
  rewrite Z.eqb_eq. split; [apply byte_val_inj | congruence].
Qed.

Lemma parse_header_true_iff (m : t) :
  (8 <= length (binary_data_ m))%nat ->
  parse_header m = true <->
  take 4 (binary_data_ m) = WASM_MAGIC
  /\ take 4 (drop 4 (binary_data_ m)) = WASM_VERSION.
Proof.
  unfold parse_header, WASM_MAGIC, WASM_VERSION.
  destruct (binary_data_ m) as [|b0 [|b1 [|b2 [|b3 [|b4 [|b5 [|b6 [|b7 rest]]]]]]]];
    simpl; try lia.
  intros _. unfold byte_at; simpl.
  change 0 with (byte_val Byte.x00). change 97 with (byte_val Byte.x61).
  change 115 with (byte_val Byte.x73). change 109 with (byte_val Byte.x6d).
  change 1 with (byte_val Byte.x01).
  pose proof (byte_val_eqb b0 Byte.x00). pose proof (byte_val_eqb b1 Byte.x61).
  pose proof (byte_val_eqb b2 Byte.x73). pose proof (byte_val_eqb b3 Byte.x6d).
  pose proof (byte_val_eqb b4 Byte.x01). pose proof (byte_val_eqb b5 Byte.x00).
  pose proof (byte_val_eqb b6 Byte.x00). pose proof (byte_val_eqb b7 Byte.x00).
  destruct (byte_val b0 =? _), (byte_val b1 =? _), (byte_val b2 =? _),
    (byte_val b3 =? _), (byte_val b4 =? _), (byte_val b5 =? _),
    (byte_val b6 =? _), (byte_val b7 =? _); simpl;
    (split; [intros Ht; try discriminate Ht; split; repeat f_equal; tauto
            | intros [Hm Hv]; try reflexivity; exfalso;
              injection Hm as ? ? ? ?; injection Hv as ? ? ? ?;
              intuition discriminate]).
Qed.

(** The loop, one round unfolded. *)
Lemma parse_sections_loop_cons (b : Byte.byte) (rest : list Byte.byte) (m : t) :
  parse_sections_loop (b :: rest) m =
  match parse_section (b :: rest) with
  | Some (section, ptr') =>
      parse_sections_loop ptr' (set_sections m (sections_ m ++ [section]))
  | None => (false, m)
  end.
Proof.
  simp parse_sections_loop.
  remember (match parse_section (b :: rest) with
            | Some (section, ptr') =>
                parse_sections_loop ptr' (set_sections m (sections_ m ++ [section]))
            | None => (false, m)
            end) as rhs eqn:Hrhs.
  destruct (inspect (parse_section (b :: rest))) as [o e].
  rewrite e in Hrhs. subst rhs.
  destruct o as [[section ptr']|]; reflexivity.
Qed.

Lemma parse_binary_bad_header (m : t) :
  (length (binary_data_ m) < 8)%nat
  \/ take 4 (binary_data_ m) <> WASM_MAGIC
  \/ take 4 (drop 4 (binary_data_ m)) <> WASM_VERSION ->
  parse_binary m = (false, m).
Proof.
  intros Hbad. unfold parse_binary.
  destruct (Z.of_nat (length (binary_data_ m)) <? 8) eqn:E; [reflexivity|].
  apply Z.ltb_ge in E.
  destruct (parse_header m) eqn:Eh; [|reflexivity].
  apply parse_header_true_iff in Eh; [|lia].
  destruct Eh as [Hm Hv]. destruct Hbad as [H|[H|H]]; [lia|tauto|tauto].
Qed.

Lemma parse_binary_good_header (m : t) :
  (8 <= length (binary_data_ m))%nat ->
  take 4 (binary_data_ m) = WASM_MAGIC ->
  take 4 (drop 4 (binary_data_ m)) = WASM_VERSION ->
  parse_binary m = parse_sections m.
Proof.
  intros Hlen Hm Hv. unfold parse_binary.
  destruct (Z.of_nat (length (binary_data_ m)) <? 8) eqn:E;
    [apply Z.ltb_lt in E; lia|].
  assert (Eh : parse_header m = true)
    by (apply parse_header_true_iff; [lia|tauto]).
  rewrite Eh. reflexivity.
Qed.

(** C5: the header check. An input of fewer than 8 bytes, or whose first
    four bytes are not the magic number, or whose next four are not version
    1, is refused: [parse_binary] returns [false] and leaves the module as
    it was (no section recorded), and [compile] on a module not yet compiled
    returns [false] and leaves it uncompiled. An input that passes the three
    checks goes on to section decoding. The bare 8-byte header is accepted as
    a module without sections; the same bytes with byte 0 changed to 0x01 are
    refused. *)
Theorem decoder_header_check (m : t) :
  ((length (binary_data_ m) < 8)%nat
   \/ take 4 (binary_data_ m) <> WASM_MAGIC
   \/ take 4 (drop 4 (binary_data_ m)) <> WASM_VERSION ->
   parse_binary m = (false, m)
   /\ (is_compiled_ m = false -> compile m = (false, m)))
  /\ ((8 <= length (binary_data_ m))%nat ->
      take 4 (binary_data_ m) = WASM_MAGIC ->
      take 4 (drop 4 (binary_data_ m)) = WASM_VERSION ->
      parse_binary m = parse_sections m)
  /\ compile (new [Byte.x00; Byte.x61; Byte.x73; Byte.x6d;
                   Byte.x01; Byte.x00; Byte.x00; Byte.x00])
     = (true, {| binary_data_ := [Byte.x00; Byte.x61; Byte.x73; Byte.x6d;
                                  Byte.x01; Byte.x00; Byte.x00; Byte.x00];
                 sections_ := []; is_compiled_ := true |})
  /\ compile (new [Byte.x01; Byte.x61; Byte.x73; Byte.x6d;
                   Byte.x01; Byte.x00; Byte.x00; Byte.x00])
     = (false, new [Byte.x01; Byte.x61; Byte.x73; Byte.x6d;
                    Byte.x01; Byte.x00; Byte.x00; Byte.x00]).
Proof.
  split; [|split; [|split; reflexivity]].
  - intros Hbad. pose proof (parse_binary_bad_header m Hbad) as Hp.
    split; [exact Hp|]. intros Hc. unfold compile. rewrite Hc, Hp. reflexivity.
  - apply parse_binary_good_header.
Qed.

(** *** Sections *)

Lemma read_leb128_u32_loop_nonneg (ptr : list Byte.byte) :
  forall result shift,
    0 <= result -> 0 <= (read_leb128_u32_loop ptr result shift).1.
Proof.
  induction ptr as [|b ptr IH]; intros result shift Hr; simpl; [exact Hr|].
  assert (Hl : 0 <= Z.lor result (wrap32 (Z.shiftl (Z.land (byte_val b) 127) shift))).
  { apply Z.lor_nonneg. split; [exact Hr|].
    unfold wrap32. apply Z.mod_pos_bound. lia. }
  destruct (Z.land _ _ =? 0); [exact Hl|].
  destruct (32 <=? _); [exact Hl|]. apply IH, Hl.
Qed.

(** The size field takes at most five bytes off the front. *)
Lemma read_leb128_u32_loop_consumes (ptr : list Byte.byte) :
  forall result shift,
    0 <= shift <= 31 ->
    exists k : nat,
      Z.of_nat k <= 1 + (31 - shift) / 7
      /\ (read_leb128_u32_loop ptr result shift).2 = drop k ptr.
Proof.
  induction ptr as [|b ptr IH]; intros result shift Hs; simpl.
  - exists 0%nat. split; [|reflexivity].
    pose proof (Z.div_pos (31 - shift) 7). lia.
  - destruct (Z.land _ _ =? 0).
    + exists 1%nat. split; [|reflexivity].
      pose proof (Z.div_pos (31 - shift) 7). lia.
    + destruct (32 <=? shift + 7) eqn:E.
      * exists 1%nat. split; [|reflexivity].
        pose proof (Z.div_pos (31 - shift) 7). lia.
      * apply Z.leb_gt in E.
        destruct (IH (Z.lor result (wrap32 (Z.shiftl (Z.land (byte_val b) 127) shift)))
                     (shift + 7)) as (k & Hk & ->); [lia|].
        exists (S k). split; [|reflexivity].
        replace (31 - shift) with ((31 - (shift + 7)) + 1 * 7) by lia.
        rewrite Z.div_add by lia. lia.
Qed.

Lemma truncated_section_stops_loop (ptr q : list Byte.byte) :
  section_start ptr q ->
  q <> [] ->
  parse_section q = None ->
  forall m, exists m',
    parse_sections_loop ptr m = (false, m')
    /\ binary_data_ m' = binary_data_ m
    /\ is_compiled_ m' = is_compiled_ m.
Proof.
  induction 1 as [ptr|ptr section ptr' q Hs _ IH]; intros Hq Hnone m.
  - destruct ptr as [|b rest]; [congruence|].
    rewrite parse_sections_loop_cons, Hnone. eauto.
  - destruct ptr as [|b rest]; [discriminate Hs|].
    rewrite parse_sections_loop_cons, Hs.
    destruct (IH Hq Hnone (set_sections m (sections_ m ++ [section])))
      as (m' & -> & Hd & Hc).
    eauto.
Qed.

Lemma parse_section_none_iff (b : Byte.byte) (ptr : list Byte.byte) :
  parse_section (b :: ptr) = None <->
  Z.of_nat (length (read_leb128_u32 ptr).2) < (read_leb128_u32 ptr).1.
Proof.
  unfold parse_section. destruct (read_leb128_u32 ptr) as [sz payload]; simpl.
  destruct (Z.of_nat (length payload) <? sz) eqn:E.
  - apply Z.ltb_lt in E. tauto.
  - apply Z.ltb_ge in E. split; [discriminate|lia].
Qed.

Lemma valid_header_prefix (bytes : list Byte.byte) :
  take 8 bytes = WASM_MAGIC ++ WASM_VERSION ->
  (8 <= length bytes)%nat
  /\ take 4 bytes = WASM_MAGIC
  /\ take 4 (drop 4 bytes) = WASM_VERSION.
Proof.
  intros H. repeat split.
  - apply (f_equal length) in H. rewrite length_take in H.
    change (length (WASM_MAGIC ++ WASM_VERSION)) with 8%nat in H. lia.
  - replace (take 4 bytes) with (take 4 (take 8 bytes))
      by (rewrite take_take; reflexivity).
    rewrite H. reflexivity.
  - rewrite take_drop_commute. simpl. rewrite H. reflexivity.
Qed.

(** C6: section decoding. A section is one id byte, a size field of at most
    five bytes read as an unsigned LEB128 number, and then exactly [size]
    payload bytes: an accepted section carries the id, the decoded size, and
    the [size] bytes that follow the size field, and decoding resumes right
    after them. A section is refused exactly when its declared size exceeds
    the bytes left after the size field. When the decoder, having read whole
    sections behind a valid header, arrives at such a section, [compile]
    returns [false] and the module is not marked compiled. A section
    declaring size 10 with 4 bytes left is refused. *)
Theorem truncated_section_rejected :
  (forall b ptr section ptr',
     parse_section (b :: ptr) = Some (section, ptr') ->
     id section = byte_val b
     /\ size section = (read_leb128_u32 ptr).1
     /\ Z.of_nat (length (data section)) = size section
     /\ (read_leb128_u32 ptr).2 = data section ++ ptr'
     /\ exists k, (k <= 5)%nat /\ (read_leb128_u32 ptr).2 = drop k ptr)
  /\ (forall b ptr,
        parse_section (b :: ptr) = None <->
        Z.of_nat (length (read_leb128_u32 ptr).2) < (read_leb128_u32 ptr).1)
  /\ (forall m b ptr,
        is_compiled_ m = false ->
        take 8 (binary_data_ m) = WASM_MAGIC ++ WASM_VERSION ->
        section_start (drop 8 (binary_data_ m)) (b :: ptr) ->
        Z.of_nat (length (read_leb128_u32 ptr).2) < (read_leb128_u32 ptr).1 ->
        exists m', compile m = (false, m')
                   /\ is_compiled_ m' = false
                   /\ binary_data_ m' = binary_data_ m)
  /\ compile (new (WASM_MAGIC ++ WASM_VERSION ++
                   [Byte.x01; Byte.x0a; Byte.x00; Byte.x00; Byte.x00; Byte.x00]))
     = (false, new (WASM_MAGIC ++ WASM_VERSION ++
                    [Byte.x01; Byte.x0a; Byte.x00; Byte.x00; Byte.x00; Byte.x00])).
Proof.
  split; [|split; [|split; [|reflexivity]]].
  - intros b ptr section ptr' H. unfold parse_section in H.
    pose proof (read_leb128_u32_loop_nonneg ptr 0 0 (Z.le_refl 0)) as Hnn.
    destruct (read_leb128_u32_loop_consumes ptr 0 0) as (k & Hk & Hdrop); [lia|].
    fold (read_leb128_u32 ptr) in Hnn, Hdrop.
    destruct (read_leb128_u32 ptr) as [sz payload]; simpl in *.
    destruct (Z.of_nat (length payload) <? sz) eqn:E; [discriminate|].
    apply Z.ltb_ge in E. injection H as <- <-. simpl.
    repeat split.
    + rewrite length_take. lia.
    + rewrite take_drop. reflexivity.
    + exists k. split; [|exact Hdrop]. change ((31 - 0) / 7) with 4 in Hk. lia.
  - apply parse_section_none_iff.
  - intros m b ptr Hc Hh Hs Ht.
    destruct (valid_header_prefix _ Hh) as (Hlen & Hm & Hv).
    pose proof (parse_binary_good_header m Hlen Hm Hv) as Hp.
    destruct (truncated_section_stops_loop _ _ Hs) with (m := set_sections m [])
      as (m' & Hl & Hd & Hc'); [discriminate | apply parse_section_none_iff, Ht |].
    exists m'. unfold compile. rewrite Hc, Hp. unfold parse_sections. rewrite Hl.
    simpl. repeat split; [rewrite Hc'; exact Hc | exact Hd].
Qed.

End DecoderProperties.

(** *** Closed instances for the decoder *)

(** Behind a valid header and one whole section, a section declaring 10
    bytes with 4 left: [compile] fails. *)
Lemma truncated_section_rejected_witness :
  exists m', WasmModule.compile (WasmModule.new truncated_module_bytes) = (false, m')
             /\ WasmModule.is_compiled_ m' = false
             /\ WasmModule.binary_data_ m' = truncated_module_bytes.
Proof.
  apply (proj1 (proj2 (proj2 truncated_section_rejected))
           (WasmModule.new truncated_module_bytes)
           Byte.x02 [Byte.x0a; Byte.x00; Byte.x00; Byte.x00; Byte.x00]).
  - reflexivity.
  - reflexivity.
  - eapply WasmModule.start_after; [reflexivity | apply WasmModule.start_here].
  - vm_compute. reflexivity.
Defined.

(** Three bytes are too few for a header. *)
Lemma decoder_header_check_witness :
  WasmModule.parse_binary (WasmModule.new [Byte.x00; Byte.x61; Byte.x73])
  = (false, WasmModule.new [Byte.x00; Byte.x61; Byte.x73]).
Proof.
  refine (proj1 (proj1 (decoder_header_check
            (WasmModule.new [Byte.x00; Byte.x61; Byte.x73])) (or_introl _))).
  simpl. lia.
Defined.

(** ** The module interpreter *)

Lemma int_of_double_range (x : float) :
  INT32_MIN <= int_of_double x <= INT32_MAX.
Proof.
  unfold int_of_double. destruct (trunc_double x) as [z|].
  - destruct ((INT32_MIN <=? z) && (z <=? INT32_MAX)) eqn:E.
    + apply andb_true_iff in E. destruct E as [E1 E2].
      apply Z.leb_le in E1, E2. lia.
    + unfold INT32_MIN, INT32_MAX. lia.
  - unfold INT32_MIN, INT32_MAX. lia.
Qed.

Section InterpreterProperties.

Import WasmVM.

Context {host : HostValue} {rep : WasmValueRep}.

Lemma read_leb128_u32_loop_length (p : list Byte.byte) :
  forall result shift,
    (length (read_leb128_u32_loop p result shift).2 <= length p)%nat.
Proof.
  induction p as [|b p IH]; intros result shift; simpl; [lia|].
  destruct (Z.land _ _ =? 0); [simpl; lia|].
  destruct (32 <=? _); [simpl; lia|].
  etransitivity; [apply IH | lia].
Qed.

Lemma read_leb128_i32_loop_length (p : list Byte.byte) :
  forall result shift,
    (length (read_leb128_i32_loop p result shift).2 <= length p)%nat.
Proof.
  induction p as [|b p IH]; intros result shift; simpl; [lia|].
  destruct (negb _ && _); [|simpl; lia].
  etransitivity; [apply IH | lia].
Qed.

(** Every instruction takes at least its opcode byte. *)
Lemma execute_instruction_consumes (frame frame' : ExecutionFrame) (go : bool) :
  pc frame <> [] ->
  execute_instruction frame = (go, frame') ->
  (length (pc frame') < length (pc frame))%nat.
Proof.
  unfold execute_instruction. destruct (pc frame) as [|b p] eqn:Ep; [congruence|].
  intros _.
  pose proof (read_leb128_u32_loop_length p 0 0) as Hu.
  pose proof (read_leb128_i32_loop_length p 0 0) as Hi.
  destruct (opcode_of_byte b);
    unfold handle_i32_const, handle_i32_add, handle_i32_sub, handle_i32_mul,
      handle_f32_add, handle_f64_add, handle_local_get, handle_local_set,
      handle_return, read_leb128_u32, read_leb128_i32; simpl;
    repeat match goal with
           | |- context [read_leb128_u32_loop p 0 0] =>
               destruct (read_leb128_u32_loop p 0 0); simpl in *
           | |- context [read_leb128_i32_loop p 0 0] =>
               destruct (read_leb128_i32_loop p 0 0); simpl in *
           | |- context [match ?l with [] => _ | _ :: _ => _ end] =>
               destruct l; simpl
           | |- context [match ?o with Some _ => _ | None => _ end] =>
               destruct o; simpl
           | |- context [if ?c then _ else _] => destruct c; simpl
           end;
    intros H; injection H as _ <-; simpl; lia.
Qed.

(** The loop stops, on the frame [halts_at] describes, and hands back the
    call stack it found. *)
Lemma execute_loop_halts (fuel : nat) :
  forall (frame : ExecutionFrame) (below : list ExecutionFrame),
    (length (pc frame) <= fuel)%nat ->
    exists final,
      halts_at frame final
      /\ execute_loop fuel (frame :: below) = Ok (frame_result final, below).
Proof.
  induction fuel as [|fuel IH]; intros frame below Hlen.
  - destruct (pc frame) as [|b p] eqn:Ep; [|simpl in Hlen; lia].
    exists frame. split; [apply halts_end, Ep|]. simpl. rewrite Ep. reflexivity.
  - destruct (pc frame) as [|b p] eqn:Ep.
    + exists frame. split; [apply halts_end, Ep|]. simpl. rewrite Ep. reflexivity.
    + assert (Hne : pc frame <> []) by congruence.
      simpl. rewrite Ep.
      destruct (execute_instruction frame) as [go frame'] eqn:Ex.
      pose proof (execute_instruction_consumes _ _ _ Hne Ex) as Hc.
      destruct go.
      * destruct (IH frame' below) as (final & Hh & Hr); [rewrite Ep in Hc; simpl in *; lia|].
        exists final. split; [eapply halts_step; eassumption | exact Hr].
      * exists frame'. split; [eapply halts_stop; eassumption | reflexivity].
Qed.

(** C10 (as amended): for instruction bytes that are not empty,
    [execute_function] returns: the interpreter stops on some frame, and the
    host value returned is the [i32] member of the value on top of that
    frame's stack (of a default value when the stack is empty), converted to
    a double; the call stack is handed back as it was found. With a default
    value that reads as zero, an empty final stack gives the number 0. The
    [i32] member is read whatever the last instruction wrote:
    after [F64_ADD] (and [F32_ADD]) the result is the [i32] reading of the
    value built from the floating-point sum. For empty instruction bytes no
    frame is made and the host's default value is returned. *)
Theorem execute_function_returns_i32_view (call_stack_ : list ExecutionFrame)
    (bytecode : list Byte.byte) (args : list Value) :
  (bytecode <> [] ->
   exists final,
     halts_at {| pc := bytecode; locals := local_of_arg <$> args; stack := [] |} final
     /\ execute_function call_stack_ bytecode args
        = Ok (of_number (double_of_int
                (i32 (match stack final with
                      | [] => wv_default
                      | top :: _ => top
                      end))), call_stack_)
     /\ (WasmValueLaws rep -> stack final = [] ->
         execute_function call_stack_ bytecode args = Ok (of_number 0, call_stack_)))
  /\ execute_function call_stack_
       [Byte.x41; Byte.x01; Byte.x41; Byte.x02; Byte.xa0; Byte.x0f] args
     = Ok (of_number (double_of_int
             (i32 (wv_of_f64 (f64 (wv_of_i32 1) + f64 (wv_of_i32 2))%float))),
           call_stack_)
  /\ execute_function call_stack_
       [Byte.x41; Byte.x01; Byte.x41; Byte.x02; Byte.x92; Byte.x0f] args
     = Ok (of_number (double_of_int
             (i32 (wv_of_f32 (f32_add (f32 (wv_of_i32 1)) (f32 (wv_of_i32 2)))))),
           call_stack_)
  /\ execute_function call_stack_ [] args = Ok (undefined, call_stack_).
Proof.
  split; [|repeat split].
  intros Hne. unfold execute_function.
  destruct bytecode as [|b p]; [congruence|].
  set (frame := {| pc := b :: p; locals := local_of_arg <$> args; stack := [] |}).
  destruct (execute_loop_halts (length (b :: p)) frame call_stack_)
    as (final & Hh & Hr); [reflexivity|].
  exists final. split; [exact Hh|]. split; [exact Hr|].
  intros laws Hs. rewrite Hr. unfold frame_result. rewrite Hs, i32_default.
  reflexivity.
Qed.

(** *** Integer arithmetic and the "add" export *)

Lemma local_of_number (laws : HostValueLaws host) (x : float) :
  local_of_arg (of_number x) = set_i32 wv_default (int_of_double x).
Proof.
  unfold local_of_arg. rewrite is_number_of_number, as_number_of_number.
  reflexivity.
Qed.

(** The "add" export on two numbers: both are truncated to [int32_t], added
    with wrap-around, and the sum comes back as a number. *)
Lemma add_export (hl : HostValueLaws host) (wl : WasmValueLaws rep)
    (inst : WasmInstance.t) (cs : list ExecutionFrame) (m : WasmModule.t)
    (x y : float) :
  WasmInstance.vm_ inst = Some cs ->
  WasmInstance.module_ inst = Some m ->
  WasmModule.is_compiled_ m = true ->
  WasmInstance.call_exported_function inst "add" [of_number x; of_number y]
  = Ok (of_number (double_of_int (sint32 (int_of_double x + int_of_double y))),
        inst).
Proof.
  intros Hvm Hm Hc. unfold WasmInstance.call_exported_function.
  rewrite Hvm, Hm, Hc. simpl negb. cbv iota.
  change (String.eqb "add" "add") with true. cbv iota.
  unfold WasmInstance.run_template, WasmInstance.add_template, execute_function.
  simpl fmap. rewrite !local_of_number by exact hl.
  replace (execute_loop _ _) with
    (Ok (of_number (double_of_int
           (i32 (wv_of_i32 (sint32
              (i32 (set_i32 wv_default (int_of_double x))
               + i32 (set_i32 wv_default (int_of_double y))))))), cs))
    by reflexivity.
  rewrite !i32_set_i32 by apply int_of_double_range.
  rewrite i32_of_i32 by apply sint32_range.
  destruct inst as [mo me vo]; simpl in *. subst vo. reflexivity.
Qed.

(** C7: [I32_ADD], [I32_SUB] and [I32_MUL] on a stack of at least two
    values pop [b] (the top, pushed last), then [a], and push [a + b],
    [a - b], [a * b] reduced to a signed 32-bit integer, the rest of the
    stack and the locals untouched; [sint32] is two's-complement
    wrap-around: its value lies in the [int32_t] range and differs from the
    exact result by a multiple of 2^32. The "add" export on locals [a, b]
    gives 0 for (0, 0), -2 for (-5, 3), and wraps to -2147483648 for
    (2147483647, 1). *)
Theorem i32_arithmetic_wraps (hl : HostValueLaws host) (wl : WasmValueLaws rep) :
  (forall p l a b rest,
     let frame op := {| pc := op :: p; locals := l; stack := b :: a :: rest |} in
     let after z := (true, {| pc := p; locals := l; stack := wv_of_i32 z :: rest |}) in
     execute_instruction (frame Byte.x6a) = after (sint32 (i32 a + i32 b))
     /\ execute_instruction (frame Byte.x6b) = after (sint32 (i32 a - i32 b))
     /\ execute_instruction (frame Byte.x6c) = after (sint32 (i32 a * i32 b))
     /\ handle_i32_add (frame Byte.x6a)
        = (true, set_frame_stack (frame Byte.x6a)
                   (wv_of_i32 (sint32 (i32 a + i32 b)) :: rest))
     /\ handle_i32_sub (frame Byte.x6b)
        = (true, set_frame_stack (frame Byte.x6b)
                   (wv_of_i32 (sint32 (i32 a - i32 b)) :: rest))
     /\ handle_i32_mul (frame Byte.x6c)
        = (true, set_frame_stack (frame Byte.x6c)
                   (wv_of_i32 (sint32 (i32 a * i32 b)) :: rest)))
  /\ (forall z, INT32_MIN <= sint32 z <= INT32_MAX
                /\ (sint32 z - z) mod 2 ^ 32 = 0
                /\ (INT32_MIN <= z <= INT32_MAX -> sint32 z = z))
  /\ (forall inst cs m,
        WasmInstance.vm_ inst = Some cs ->
        WasmInstance.module_ inst = Some m ->
        WasmModule.is_compiled_ m = true ->
        WasmInstance.call_exported_function inst "add" [of_number 0; of_number 0]
        = Ok (of_number 0, inst)
        /\ WasmInstance.call_exported_function inst "add"
             [of_number (-5); of_number 3]
           = Ok (of_number (-2), inst)
        /\ WasmInstance.call_exported_function inst "add"
             [of_number 2147483647; of_number 1]
           = Ok (of_number (-2147483648), inst)).
Proof.
  split; [|split].
  - intros p l a b rest frame after. repeat split.
  - intros z. split; [apply sint32_range|].
    split; [apply sint32_congruent | apply sint32_small].
  - intros inst cs m Hvm Hm Hc.
    repeat split; rewrite (add_export hl wl inst cs m) by assumption;
      reflexivity.
Qed.

End InterpreterProperties.

(** *** Closed instances for the interpreter *)

(** The "add" export of the default instance on (2147483647, 1). *)
Lemma i32_arithmetic_wraps_witness :
  WasmInstance.call_exported_function (host := RefHost.host) default_instance
    "add" [of_number 2147483647; of_number 1]
  = Ok (of_number (-2147483648), default_instance).
Proof.
  exact (proj2 (proj2 (proj2 (proj2
    (i32_arithmetic_wraps (host := RefHost.host) RefHost_laws RefWasmValue_laws))
    default_instance [] _ eq_refl eq_refl eq_refl))).
Defined.

(** C10, counterexample: on empty instruction bytes no frame is made, and
    the value returned is the host's default value, which is not a number
    read from any [WasmValue]. *)
Lemma execute_function_empty_code_is_undefined :
  WasmVM.execute_function (host := RefHost.host) (rep := RefWasmValue.rep) [] [] []
  = Ok (RefHost.Undefined, [])
  /\ forall v : @WasmValue RefWasmValue.rep,
       RefHost.Undefined <> RefHost.Number (double_of_int (i32 v)).
Proof. split; [reflexivity | discriminate]. Qed.

(** The "const42" template, run with no arguments. *)
Lemma execute_function_returns_i32_view_witness :
  exists final,
    WasmVM.halts_at (rep := RefWasmValue.rep)
      {| WasmVM.pc := WasmInstance.const42_template;
         WasmVM.locals := []; WasmVM.stack := [] |} final
    /\ WasmVM.execute_function (host := RefHost.host) (rep := RefWasmValue.rep)
         [] WasmInstance.const42_template []
       = Ok (of_number (double_of_int
               (i32 (match WasmVM.stack final with
                     | [] => wv_default
                     | top :: _ => top
                     end))), [])
    /\ (WasmValueLaws RefWasmValue.rep -> WasmVM.stack final = [] ->
        WasmVM.execute_function (host := RefHost.host) (rep := RefWasmValue.rep)
         [] WasmInstance.const42_template []
        = Ok (of_number 0, [])).
Proof.
  apply (proj1 (execute_function_returns_i32_view (host := RefHost.host)
                  (rep := RefWasmValue.rep) [] WasmInstance.const42_template [])).
  discriminate.
Defined.

(** In the reference representation, a frame about to add the doubles 1.5
    and 2 ends with 3.5 on its stack and hands the host the number 0. *)
Lemma f64_sum_is_read_as_i32 :
  WasmVM.execute_instruction (rep := RefWasmValue.rep)
    {| WasmVM.pc := [Byte.xa0; Byte.x0f]; WasmVM.locals := [];
       WasmVM.stack := [wv_of_f64 2; wv_of_f64 1.5] |}
  = (true, {| WasmVM.pc := [Byte.x0f]; WasmVM.locals := [];
              WasmVM.stack := [wv_of_f64 3.5] |})
  /\ WasmVM.execute_loop (host := RefHost.host) (rep := RefWasmValue.rep) 2
       [{| WasmVM.pc := [Byte.xa0; Byte.x0f]; WasmVM.locals := [];
           WasmVM.stack := [wv_of_f64 2; wv_of_f64 1.5] |}]
     = Ok (RefHost.Number 0, []).
Proof. split; reflexivity. Qed.

(** The instruction bytes [0x41, 0x2A, 0x0F] ([I32_CONST 42], [RETURN])
    executed with no arguments yield 42. *)
Lemma const42_yields_42 :
  WasmVM.execute_function (host := RefHost.host) (rep := RefWasmValue.rep) []
    [Byte.x41; Byte.x2a; Byte.x0f] []
  = Ok (RefHost.Number 42, []).
Proof. reflexivity. Qed.

(** *** Closed instances for the bytecode side *)

(** A new function optimized at level 2 is refused promotion. *)
Lemma promote_guarded_by_optimized_flag_witness :
  exists g, optimize_bytecode (Some (new_function (host := RefHost.host) "f")) 2 = Some g
            /\ optimization_level g = 2
            /\ compile_to_machine_code (Some g) = (false, Some g).
Proof.
  apply (proj2 (proj2 (proj2
    (promote_guarded_by_optimized_flag (new_function (host := RefHost.host) "f"))))).
  lia.
Defined.

(** [LOAD_CONST 5] on a function with an empty constant pool. *)
Lemma constant_index_out_of_bounds_is_noop_witness :
  execute_instruction_simple (host := RefHost.host)
    {| instruction := LOAD_CONST;
       operands := [{| operand_type := CONSTANT; value := 5 |}] |}
    (new_function "f") 0 new_vm
  = Ok (new_function "f", new_vm).
Proof.
  apply (proj1 (proj2 (proj2
    (constant_index_out_of_bounds_is_noop (host := RefHost.host)
       {| instruction := LOAD_CONST;
          operands := [{| operand_type := CONSTANT; value := 5 |}] |}
       (new_function "f") 0 new_vm))) _ [] eq_refl eq_refl).
  simpl. lia.
Defined.

(** Compiling a node of an unrecognized kind: the [NOP] it emits is gone and
    the result is a fixed point of the pipeline. *)
Lemma optimization_pipeline_idempotent_witness :
  exists g c',
    compile (host := RefHost.host) new_compiler
      (Some {| get_type := OTHER_NODE; evaluate := undefined |}) "f" = (Some g, c')
    /\ optimize_bytecode (Some g) 2 = Some g
    /\ instructions (dead_code_elimination_pass g) = instructions g.
Proof.
  destruct (proj2 (proj2 (proj2
    (optimization_pipeline_idempotent (host := RefHost.host) (new_function "f") 2)))
    new_compiler {| get_type := OTHER_NODE; evaluate := undefined |} "f")
    as (g & c' & Hc & Hfix).
  exists g, c'. split; [exact Hc | exact (Hfix eq_refl)].
Defined.

(** * Further properties *)

(** ** The bytecode interpreter, instruction by instruction *)

Section BytecodeRuns.

Context {host : HostValue}.

Lemma execute_loop_as_run (fuel : nat) :
  forall (f : BytecodeFunction) (pc : Z) (vm : BytecodeVM),
    0 <= pc ->
    Z.of_nat (length (instructions f)) < 2 ^ 32 ->
    Z.of_nat (length (instructions f)) - pc <= Z.of_nat fuel ->
    execute_loop fuel f pc vm
    = run_ops (drop (Z.to_nat pc) (instructions f)) f pc vm.
Proof.
  induction fuel as [|fuel IH]; intros f pc vm Hpc Hlen Hfuel.
  - simpl. destruct (pc <? _) eqn:E; [apply Z.ltb_lt in E; lia|].
    apply Z.ltb_ge in E. rewrite drop_ge by lia. reflexivity.
  - simpl. destruct (pc <? _) eqn:E.
    + apply Z.ltb_lt in E.
      destruct (lookup_lt_is_Some_2 (instructions f) (Z.to_nat pc)) as [op Hop];
        [lia|].
      rewrite Hop, (drop_S _ _ _ Hop). simpl.
      destruct (execute_instruction_simple_keeps_function op f pc vm) as [vm1 ->].
      destruct (is_return_or_halt op); [reflexivity|].
      assert (Hw : wrap32 (pc + 1) = pc + 1)
        by (unfold wrap32; apply Z.mod_small; lia).
      rewrite Hw, IH by lia.
      replace (Z.to_nat (pc + 1)) with (S (Z.to_nat pc)) by lia. reflexivity.
    + apply Z.ltb_ge in E. rewrite drop_ge by lia. reflexivity.
Qed.

(** What one instruction does to the interpreter: the registers, the
    profiling switch and the count of retired instructions stay; the stack
    stays, grows by one value, or loses two values and gains one. *)
Lemma step_effect (op : BytecodeOp) (f : BytecodeFunction) (pc : Z)
    (vm : BytecodeVM) :
  exists vm',
    execute_instruction_simple op f pc vm = Ok (f, vm')
    /\ registers_ vm' = registers_ vm
    /\ profiling_enabled_ vm' = profiling_enabled_ vm
    /\ instructions_executed (stats_ vm') = instructions_executed (stats_ vm)
    /\ (stack_ vm' = stack_ vm
        \/ (exists v, stack_ vm' = v :: stack_ vm)
        \/ (exists a b rest v, stack_ vm = b :: a :: rest
                               /\ stack_ vm' = v :: rest)).
Proof.
  unfold execute_instruction_simple.
  destruct (instruction op);
    try (exists vm; repeat split; left; reflexivity).
  - destruct (operands op) as [|o os];
      [exists vm; repeat split; left; reflexivity|].
    destruct (value o <? N.of_nat (length (constants f)))%N eqn:E;
      [|exists vm; repeat split; left; reflexivity].
    apply N.ltb_lt in E.
    destruct (lookup_lt_is_Some_2 (constants f) (N.to_nat (value o))) as [c ->];
      [lia|].
    eexists. split; [reflexivity|]. repeat split. right. left. eauto.
  - destruct (2 <=? Z.of_nat (length (stack_ vm))) eqn:E;
      [|exists vm; repeat split; left; reflexivity].
    apply Z.leb_le in E. unfold pop.
    destruct (stack_ vm) as [|b [|a rest]] eqn:Es; simpl in E; try lia.
    simpl. eexists. split; [reflexivity|].
    destruct (is_number a && is_number b); simpl;
      (repeat split; try reflexivity); right; right; exists a, b, rest; eauto.
  - eexists. split; [reflexivity|]. repeat split. right. left. eauto.
Qed.

(** An instruction sees of the function only its constant pool, and of the
    interpreter nothing of the count of retired instructions. *)
Lemma step_related (op : BytecodeOp) (f g : BytecodeFunction) (pc pc' : Z)
    (vm1 vm2 : BytecodeVM) :
  constants f = constants g ->
  same_but_retired vm1 vm2 ->
  exists vm1' vm2',
    execute_instruction_simple op f pc vm1 = Ok (f, vm1')
    /\ execute_instruction_simple op g pc' vm2 = Ok (g, vm2')
    /\ same_but_retired vm1' vm2'
    /\ instructions_executed (stats_ vm1') = instructions_executed (stats_ vm1)
    /\ instructions_executed (stats_ vm2') = instructions_executed (stats_ vm2).
Proof.
  intros Hc (Hs & Hr & Hp & Ho & Hf).
  unfold execute_instruction_simple. rewrite <- Hc.
  destruct (instruction op);
    try (exists vm1, vm2; repeat split; assumption).
  - destruct (operands op) as [|o os];
      [exists vm1, vm2; repeat split; assumption|].
    destruct (value o <? N.of_nat (length (constants f)))%N eqn:E;
      [|exists vm1, vm2; repeat split; assumption].
    apply N.ltb_lt in E.
    destruct (lookup_lt_is_Some_2 (constants f) (N.to_nat (value o))) as [c ->];
      [lia|].
    eexists _, _. split; [reflexivity|]. split; [reflexivity|].
    unfold same_but_retired; simpl. rewrite Hs. repeat split; assumption.
  - rewrite <- Hs.
    destruct (2 <=? Z.of_nat (length (stack_ vm1))) eqn:E;
      [|exists vm1, vm2; repeat split; assumption].
    apply Z.leb_le in E. unfold pop. rewrite <- Hs.
    destruct (stack_ vm1) as [|b [|a rest]] eqn:Es; simpl in E; try lia.
    simpl. eexists _, _. split; [reflexivity|]. split; [reflexivity|].
    unfold same_but_retired.
    destruct (is_number a && is_number b); simpl; rewrite Ho;
      repeat split; assumption.
  - eexists _, _. split; [reflexivity|]. split; [reflexivity|].
    unfold same_but_retired; simpl. rewrite Hs, Hf. repeat split; assumption.
Qed.

Lemma same_but_retired_count (vm1 vm2 : BytecodeVM) :
  same_but_retired vm1 vm2 ->
  same_but_retired (count_instruction vm1) (count_instruction vm2).
Proof. intros (Hs & Hr & Hp & Ho & Hf). repeat split; assumption. Qed.

Lemma instruction_eqb_eq (a b : BytecodeInstruction) :
  instruction_eqb a b = true <-> a = b.
Proof.
  destruct a, b; simpl; split; try congruence; try discriminate.
  - intros H. apply Z.eqb_eq in H. congruence.
  - intros H. injection H as ->. apply Z.eqb_refl.
Qed.

Lemma remove_nops_length (ops : list BytecodeOp) :
  (length (remove_nops ops) <= length ops)%nat.
Proof.
  unfold remove_nops. induction ops as [|op ops IH]; simpl; [lia|].
  destruct (negb _); simpl; lia.
Qed.

(** Running a sequence and running it with the [NOP]s taken out end in the
    same interpreter state, the count of retired instructions apart. *)
Lemma run_ops_without_nops (ops : list BytecodeOp) (f g : BytecodeFunction) :
  constants f = constants g ->
  forall pc1 pc2 vm1 vm2,
    same_but_retired vm1 vm2 ->
    exists vm1' vm2',
      run_ops ops f pc1 vm1 = Ok (f, vm1')
      /\ run_ops (remove_nops ops) g pc2 vm2 = Ok (g, vm2')
      /\ same_but_retired vm1' vm2'
      /\ instructions_executed (stats_ vm2') - instructions_executed (stats_ vm2)
         <= instructions_executed (stats_ vm1') - instructions_executed (stats_ vm1).
Proof.
  intros Hc. induction ops as [|op ops IH]; intros pc1 pc2 vm1 vm2 Hsame.
  - exists vm1, vm2. simpl. repeat split; try apply Hsame. lia.
  - unfold remove_nops. simpl. fold (remove_nops ops).
    destruct (negb (instruction_eqb (instruction op) NOP)) eqn:En.
    + destruct (step_related op f g pc1 pc2 vm1 vm2 Hc Hsame)
        as (vm1' & vm2' & -> & H2 & Hs' & Hi1 & Hi2).
      simpl. rewrite H2.
      destruct (is_return_or_halt op).
      * eexists _, _. split; [reflexivity|]. split; [reflexivity|].
        split; [apply same_but_retired_count, Hs'|]. simpl. lia.
      * destruct (IH (pc1 + 1) (pc2 + 1) (count_instruction vm1')
                     (count_instruction vm2') (same_but_retired_count _ _ Hs'))
          as (w1 & w2 & -> & -> & Hw & Hle).
        eexists _, _. split; [reflexivity|]. split; [reflexivity|].
        split; [exact Hw|]. simpl in Hle. lia.
    + apply negb_false_iff, instruction_eqb_eq in En.
      unfold execute_instruction_simple at 1, is_return_or_halt. rewrite En. simpl.
      destruct (IH (pc1 + 1) pc2 (count_instruction vm1) vm2)
        as (w1 & w2 & -> & -> & Hw & Hle).
      { destruct Hsame as (Hs & Hr & Hp & Ho & Hf). repeat split; assumption. }
      eexists _, _. split; [reflexivity|]. split; [reflexivity|].
      split; [exact Hw|]. simpl in Hle. lia.
Qed.

Lemma execute_without_nops (f g : BytecodeFunction) (args : list Value)
    (vm : BytecodeVM) :
  constants f = constants g ->
  register_count f = register_count g ->
  parameter_count f = parameter_count g ->
  instructions g = remove_nops (instructions f) ->
  Z.of_nat (length (instructions f)) < 2 ^ 32 ->
  exists v vm1 vm2,
    execute (Some f) args vm = Ok (v, Some f, vm1)
    /\ execute (Some g) args vm = Ok (v, Some g, vm2)
    /\ same_but_retired vm1 vm2
    /\ instructions_executed (stats_ vm2) <= instructions_executed (stats_ vm1).
Proof.
  intros Hc Hr Hp Hi Hlen.
  pose proof (remove_nops_length (instructions f)) as Hle.
  unfold execute. rewrite <- Hr, <- Hp.
  rewrite !execute_loop_as_run by (rewrite ?Hi; lia).
  change (Z.to_nat 0) with 0%nat. rewrite !drop_0, Hi.
  set (vm0 := set_stack _ []).
  destruct (run_ops_without_nops (instructions f) f g Hc 0 0 vm0 vm0)
    as (vm1 & vm2 & -> & -> & Hs & Hd); [repeat split|].
  pose proof Hs as (Hst & _). unfold pop. rewrite <- Hst.
  destruct (stack_ vm1) as [|v rest] eqn:Es.
  - exists undefined, vm1, vm2. repeat split; try apply Hs. lia.
  - exists v, (set_stack vm1 rest), (set_stack vm2 rest).
    repeat split; try apply Hs. simpl. lia.
Qed.

(** X1: removing the [NOP]s does not change what a function computes. For
    [g] the result of [dead_code_elimination_pass] or of [optimize_bytecode]
    (at any level) on [f], executing [g] returns the value executing [f]
    returns and leaves the same operand stack and registers; it retires no
    more instructions than [f] does. *)
Theorem dead_code_elimination_preserves_execution (f g : BytecodeFunction)
    (level : Z) (args : list Value) (vm : BytecodeVM) :
  g = dead_code_elimination_pass f \/ optimize_bytecode (Some f) level = Some g ->
  Z.of_nat (length (instructions f)) < 2 ^ 32 ->
  exists v vm1 vm2,
    execute (Some f) args vm = Ok (v, Some f, vm1)
    /\ execute (Some g) args vm = Ok (v, Some g, vm2)
    /\ stack_ vm1 = stack_ vm2
    /\ registers_ vm1 = registers_ vm2
    /\ instructions_executed (stats_ vm2) <= instructions_executed (stats_ vm1).
Proof.
  intros Hg Hlen.
  assert (Hcases : g = f \/ (constants f = constants g
                            /\ register_count f = register_count g
                            /\ parameter_count f = parameter_count g
                            /\ instructions g = remove_nops (instructions f))).
  { destruct Hg as [-> | Hg]; [right; repeat split|].
    unfold optimize_bytecode in Hg. destruct (level =? 0).
    - left. congruence.
    - right. injection Hg as <-. repeat split. }
  destruct Hcases as [-> | (Hc & Hr & Hp & Hi)].
  - destruct (execute_keeps_function f args vm Hlen) as (v & vm1 & Hx).
    exists v, vm1, vm1. repeat split; try exact Hx. lia.
  - destruct (execute_without_nops f g args vm Hc Hr Hp Hi Hlen)
      as (v & vm1 & vm2 & H1 & H2 & (Hs & Hrg & _) & Hle).
    exists v, vm1, vm2. repeat split; assumption.
Qed.

(** *** Where execution stops *)

Lemma run_ops_stops (pre post : list BytecodeOp) (op : BytecodeOp)
    (f : BytecodeFunction) :
  Forall (fun o => is_return_or_halt o = false) pre ->
  is_return_or_halt op = true ->
  forall pc vm,
    run_ops (pre ++ op :: post) f pc vm = run_ops (pre ++ [op]) f pc vm.
Proof.
  intros Hpre Hop. induction Hpre as [|o pre Ho _ IH]; intros pc vm; simpl.
  - destruct (execute_instruction_simple_keeps_function op f pc vm) as [vm1 ->].
    rewrite Hop. reflexivity.
  - destruct (execute_instruction_simple_keeps_function o f pc vm) as [vm1 ->].
    rewrite Ho. apply IH.
Qed.

Lemma run_ops_retired (pre : list BytecodeOp) (f : BytecodeFunction) :
  Forall (fun o => is_return_or_halt o = false) pre ->
  forall (tail : list BytecodeOp) pc vm,
    (tail = [] \/ exists op, tail = [op] /\ is_return_or_halt op = true) ->
    exists vm',
      run_ops (pre ++ tail) f pc vm = Ok (f, vm')
      /\ instructions_executed (stats_ vm')
         = instructions_executed (stats_ vm) + Z.of_nat (length (pre ++ tail)).
Proof.
  intros Hpre. induction Hpre as [|o pre Ho _ IH]; intros tail pc vm Ht.
  - destruct Ht as [-> | (op & -> & Hop)]; simpl.
    + exists vm. split; [reflexivity | lia].
    + destruct (step_effect op f pc vm) as (vm1 & -> & _ & _ & Hi & _).
      rewrite Hop. eexists. split; [reflexivity|]. simpl. lia.
  - simpl app. cbn [run_ops].
    destruct (step_effect o f pc vm) as (vm1 & -> & _ & _ & Hi & _).
    rewrite Ho.
    destruct (IH tail (pc + 1) (count_instruction vm1) Ht) as (vm' & -> & Hc).
    exists vm'. split; [reflexivity|]. rewrite Hc. simpl length. simpl. lia.
Qed.

Lemma step_reads_constants (op : BytecodeOp) (f : BytecodeFunction) (pc : Z)
    (vm : BytecodeVM) :
  exists vm',
    execute_instruction_simple op f pc vm = Ok (f, vm')
    /\ forall g pc', constants g = constants f ->
                     execute_instruction_simple op g pc' vm = Ok (g, vm').
Proof.
  destruct (execute_instruction_simple_keeps_function op f pc vm) as [vm' H].
  exists vm'. split; [exact H|]. intros g pc' Hc.
  unfold execute_instruction_simple in *. rewrite Hc.
  destruct (instruction op); try congruence.
  - destruct (operands op) as [|o os]; [congruence|].
    destruct (value o <? _)%N; [|congruence].
    destruct (constants f !! _); congruence.
  - destruct (2 <=? _); [|congruence].
    destruct (pop vm) as [[r vm1]| |]; try congruence.
    destruct (pop vm1) as [[l vm2]| |]; congruence.
Qed.

Lemma run_ops_reads_constants (ops : list BytecodeOp) (f g : BytecodeFunction) :
  constants g = constants f ->
  forall pc pc' vm vm',
    run_ops ops f pc vm = Ok (f, vm') ->
    run_ops ops g pc' vm = Ok (g, vm').
Proof.
  intros Hc. induction ops as [|op ops IH]; intros pc pc' vm vm'; simpl.
  - congruence.
  - destruct (step_reads_constants op f pc vm) as (vm1 & -> & Hg).
    rewrite (Hg g pc' Hc).
    destruct (is_return_or_halt op); [congruence | apply IH].
Qed.

(** X2: execution stops at the first [RETURN] or [HALT]. When the
    instructions are [pre ++ op :: post] with [op] the first [RETURN] or
    [HALT], executing retires exactly [length pre + 1] instructions, and the
    value returned and the interpreter state left are those of the function
    cut after [op]: nothing of [post] is executed. Without any [RETURN] or
    [HALT], every instruction is retired once. *)
Theorem execution_stops_at_first_return (f : BytecodeFunction)
    (args : list Value) (vm : BytecodeVM) :
  Z.of_nat (length (instructions f)) < 2 ^ 32 ->
  (forall pre op post,
     instructions f = pre ++ op :: post ->
     Forall (fun o => is_return_or_halt o = false) pre ->
     is_return_or_halt op = true ->
     exists v vm',
       execute (Some f) args vm = Ok (v, Some f, vm')
       /\ instructions_executed (stats_ vm')
          = instructions_executed (stats_ vm) + Z.of_nat (length pre) + 1
       /\ execute (Some (set_instructions f (pre ++ [op]))) args vm
          = Ok (v, Some (set_instructions f (pre ++ [op])), vm'))
  /\ (Forall (fun o => is_return_or_halt o = false) (instructions f) ->
      exists v vm',
        execute (Some f) args vm = Ok (v, Some f, vm')
        /\ instructions_executed (stats_ vm')
           = instructions_executed (stats_ vm)
             + Z.of_nat (length (instructions f))).
Proof.
  intros Hlen. split.
  - intros pre op post Hi Hpre Hop.
    assert (Hlen' : Z.of_nat (length (pre ++ [op])) < 2 ^ 32).
    { rewrite Hi in Hlen. rewrite !length_app in *. simpl in *. lia. }
    unfold execute.
    rewrite !execute_loop_as_run by (simpl; lia).
    change (Z.to_nat 0) with 0%nat. rewrite !drop_0. simpl instructions.
    rewrite Hi, (run_ops_stops pre post op f Hpre Hop).
    set (vm0 := set_stack _ []).
    destruct (run_ops_retired pre f Hpre [op] 0 vm0) as (vm1 & Hr1 & Hc1);
      [right; eauto|].
    rewrite Hr1.
    rewrite (run_ops_reads_constants _ f (set_instructions f (pre ++ [op]))
               eq_refl 0 0 vm0 vm1 Hr1).
    rewrite length_app in Hc1. simpl in Hc1.
    unfold pop. destruct (stack_ vm1) as [|v rest].
    + exists undefined, vm1. repeat split. lia.
    + exists v, (set_stack vm1 rest). repeat split. simpl. lia.
  - intros Hall. unfold execute.
    rewrite execute_loop_as_run by lia.
    change (Z.to_nat 0) with 0%nat. rewrite drop_0.
    set (vm0 := set_stack _ []).
    destruct (run_ops_retired _ f Hall [] 0 vm0) as (vm1 & Hr1 & Hc1);
      [left; reflexivity|].
    rewrite app_nil_r in Hr1, Hc1. rewrite Hr1.
    unfold pop. destruct (stack_ vm1) as [|v rest].
    + exists undefined, vm1. repeat split. exact Hc1.
    + exists v, (set_stack vm1 rest). repeat split. exact Hc1.
Qed.

(** *** Registers *)

Lemma bind_parameters_length (args : list Value) :
  forall i parameter_count registers,
    length (bind_parameters i args parameter_count registers) = length registers.
Proof.
  induction args as [|a args IH]; intros i pcount regs; simpl; [reflexivity|].
  destruct (Z.of_nat i <? pcount); [|reflexivity].
  rewrite IH. destruct (Z.of_nat i <? _); [apply length_insert | reflexivity].
Qed.

Lemma bind_parameters_lookup (args : list Value) :
  forall (i : nat) parameter_count registers (j : nat),
    bind_parameters i args parameter_count registers !! j
    = if decide ((i <= j)%nat /\ (j < i + length args)%nat
                 /\ Z.of_nat j < parameter_count
                 /\ (j < length registers)%nat)
      then args !! (j - i)%nat
      else registers !! j.
Proof.
  induction args as [|a args IH]; intros i pcount regs j; simpl.
  - case_decide; [lia | reflexivity].
  - destruct (Z.of_nat i <? pcount) eqn:Ep.
    + apply Z.ltb_lt in Ep. rewrite IH.
      destruct (Z.of_nat i <? Z.of_nat (length regs)) eqn:El.
      * apply Z.ltb_lt in El. rewrite length_insert.
        destruct (decide (j = i)) as [->|Hne].
        -- rewrite list_lookup_insert_eq by lia.
           replace (i - i)%nat with 0%nat by lia.
           repeat case_decide; try lia; reflexivity.
        -- rewrite list_lookup_insert_ne by lia.
           repeat case_decide; try lia; try reflexivity;
             replace (j - i)%nat with (S (j - S i)) by lia; reflexivity.
      * apply Z.ltb_ge in El.
        destruct (decide (j = i)) as [->|Hne].
        -- repeat case_decide; try lia; reflexivity.
        -- repeat case_decide; try lia; try reflexivity;
             replace (j - i)%nat with (S (j - S i)) by lia; reflexivity.
    + apply Z.ltb_ge in Ep. case_decide; [lia | reflexivity].
Qed.

Lemma run_ops_keeps_registers (ops : list BytecodeOp) (f : BytecodeFunction) :
  forall pc vm, exists vm',
    run_ops ops f pc vm = Ok (f, vm') /\ registers_ vm' = registers_ vm.
Proof.
  induction ops as [|op ops IH]; intros pc vm; simpl; [eauto|].
  destruct (step_effect op f pc vm) as (vm1 & -> & Hr & _).
  destruct (is_return_or_halt op); [eexists; split; [reflexivity | exact Hr]|].
  destruct (IH (pc + 1) (count_instruction vm1)) as (vm' & -> & Hr').
  exists vm'. split; [reflexivity|]. rewrite Hr'. exact Hr.
Qed.

(** X3: the register file an invocation leaves. It has exactly
    [register_count] slots; slot [j] holds argument [j] when [j] is below
    the number of arguments and below [parameter_count], and the default
    value otherwise. Extra arguments are dropped, and no instruction writes
    a register. *)
Theorem execute_register_file (f : BytecodeFunction) (args : list Value)
    (vm : BytecodeVM) :
  Z.of_nat (length (instructions f)) < 2 ^ 32 ->
  exists v vm',
    execute (Some f) args vm = Ok (v, Some f, vm')
    /\ length (registers_ vm') = Z.to_nat (register_count f)
    /\ forall j : nat,
         (j < Z.to_nat (register_count f))%nat ->
         registers_ vm' !! j
         = Some (if decide ((j < length args)%nat /\ Z.of_nat j < parameter_count f)
                 then default undefined (args !! j)
                 else undefined).
Proof.
  intros Hlen. unfold execute.
  rewrite execute_loop_as_run by lia.
  change (Z.to_nat 0) with 0%nat. rewrite drop_0.
  set (regs := bind_parameters 0 args (parameter_count f) _).
  set (vm0 := set_stack _ []).
  destruct (run_ops_keeps_registers (instructions f) f 0 vm0) as (vm1 & -> & Hr).
  assert (Hregs : registers_ vm1 = regs) by (rewrite Hr; reflexivity).
  assert (Hl : length regs = Z.to_nat (register_count f)).
  { unfold regs. rewrite bind_parameters_length. simpl. apply length_replicate. }
  assert (Hj : forall j : nat,
             (j < Z.to_nat (register_count f))%nat ->
             regs !! j
             = Some (if decide ((j < length args)%nat /\ Z.of_nat j < parameter_count f)
                     then default undefined (args !! j)
                     else undefined)).
  { intros j Hjr. unfold regs. rewrite bind_parameters_lookup. simpl registers_.
    rewrite length_replicate. replace (j - 0)%nat with j by lia.
    repeat case_decide; try lia.
    - destruct (lookup_lt_is_Some_2 args j) as [a ->]; [lia | reflexivity].
    - apply lookup_replicate_2. lia. }
  unfold pop. destruct (stack_ vm1) as [|v rest].
  - exists undefined, vm1. rewrite Hregs. repeat split; assumption.
  - exists v, (set_stack vm1 rest). simpl. rewrite Hregs. repeat split; assumption.
Qed.

(** *** What the compiler produces *)

(** X4: the shape of every compiled function. Whatever the node, the
    instruction sequence ends in a [RETURN] without operands; every
    [LOAD_CONST] carries one operand, a constant-pool index below the size
    of the pool; no register is allocated and no parameter declared; the
    execution counters start empty. With optimizations enabled the sequence
    holds no [NOP] and the function is flagged optimized at level 2; with
    optimizations disabled the flag is clear and the level 0. *)
Theorem compile_output_shape (c : BytecodeCompiler) (ast : ASTNode)
    (name : string) :
  exists g,
    compile c (Some ast) name = (Some g, reset_registers c)
    /\ function_name g = name
    /\ last (instructions g) = Some {| instruction := RETURN; operands := [] |}
    /\ Forall (fun op =>
                 instruction op = LOAD_CONST ->
                 exists o, operands op = [o]
                           /\ operand_type o = CONSTANT
                           /\ (value o < N.of_nat (length (constants g)))%N)
              (instructions g)
    /\ register_count g = 0
    /\ parameter_count g = 0
    /\ hot_spots g = ∅
    /\ (if optimization_enabled_ c
        then Forall (fun op => instruction op <> NOP) (instructions g)
             /\ is_optimized g = true /\ optimization_level g = 2
        else is_optimized g = false /\ optimization_level g = 0).
Proof.
  unfold compile, compile_node_simple.
  change (optimization_enabled_ (reset_registers c)) with (optimization_enabled_ c).
  destruct (get_type ast), (optimization_enabled_ c); simpl;
    (eexists; split; [reflexivity|]); simpl;
    repeat split;
    repeat (apply Forall_cons; split);
    try apply Forall_nil;
    try discriminate;
    try (intros _; eexists; repeat split; reflexivity);
    try exact I.
Qed.

(** X5: compiling a node and executing the result. The value returned is
    3 (the sum of the constants 1 and 2) for a binary expression, the value
    of the literal for a number, string or boolean literal, the placeholder
    42 for a call, and the default value for any other node, whatever the
    arguments and whether or not optimizations are enabled. The operand
    stack is left empty, except after a call, where the callee constant
    stays behind. *)
Theorem compile_then_execute (laws : HostValueLaws host) (c : BytecodeCompiler)
    (ast : ASTNode) (name : string) (args : list Value) (vm : BytecodeVM) :
  exists g vm',
    compile c (Some ast) name = (Some g, reset_registers c)
    /\ execute (Some g) args vm
       = Ok (match get_type ast with
             | BINARY_EXPRESSION => of_number 3
             | NUMBER_LITERAL | STRING_LITERAL | BOOLEAN_LITERAL => evaluate ast
             | CALL_EXPRESSION => of_number 42
             | OTHER_NODE => undefined
             end, Some g, vm')
    /\ stack_ vm' = match get_type ast with
                    | CALL_EXPRESSION => [of_string "function"]
                    | _ => []
                    end
    /\ registers_ vm' = [].
Proof.
  unfold compile, compile_node_simple.
  change (optimization_enabled_ (reset_registers c)) with (optimization_enabled_ c).
  destruct (get_type ast), (optimization_enabled_ c), args as [|a args];
    (eexists _, _; split; [reflexivity|]);
    cbv -[is_number to_number of_number of_string to_string undefined evaluate];
    rewrite ?is_number_of_number, ?to_number_of_number;
    cbv -[is_number to_number of_number of_string to_string undefined evaluate];
    (split; [reflexivity|]); split; reflexivity.
Qed.

(** X6: what the compiler produces by default cannot be promoted. With
    optimizations enabled the compiled function carries the optimized flag,
    and [compile_to_machine_code] refuses it and leaves it as it is; with
    optimizations disabled promotion succeeds and sets tier 3. *)
Theorem compiled_function_promotion (c : BytecodeCompiler) (ast : ASTNode)
    (name : string) :
  exists g,
    compile c (Some ast) name = (Some g, reset_registers c)
    /\ compile_to_machine_code (Some g)
       = if optimization_enabled_ c then (false, Some g)
         else (true, Some (set_optimized g 3)).
Proof.
  unfold compile, compile_node_simple.
  change (optimization_enabled_ (reset_registers c)) with (optimization_enabled_ c).
  destruct (get_type ast), (optimization_enabled_ c);
    (eexists; split; reflexivity).
Qed.

(** *** One instruction, seen from outside *)

(** X7: the effect of one instruction on the interpreter. Every
    instruction yields a state and leaves the function, the registers and
    the count of retired instructions alone; the stack depth changes by at
    most one. [ADD] on fewer than two values changes nothing; on [b] over
    [a] it replaces both by [execute_fast_add a b]. [CALL] pushes the
    placeholder 42 and counts one call. Every opcode other than
    [LOAD_CONST], [ADD] and [CALL] changes nothing. *)
Theorem instruction_stack_discipline (op : BytecodeOp) (f : BytecodeFunction)
    (pc : Z) (vm : BytecodeVM) :
  exists vm',
    execute_instruction op f pc vm = Ok (f, vm')
    /\ registers_ vm' = registers_ vm
    /\ instructions_executed (stats_ vm') = instructions_executed (stats_ vm)
    /\ Z.of_nat (length (stack_ vm)) - 1 <= Z.of_nat (length (stack_ vm'))
       <= Z.of_nat (length (stack_ vm)) + 1
    /\ (instruction op = ADD -> (length (stack_ vm) < 2)%nat -> vm' = vm)
    /\ (instruction op = ADD -> forall a b rest,
        stack_ vm = b :: a :: rest ->
        stack_ vm' = execute_fast_add a b :: rest
        /\ optimized_paths_taken (stats_ vm')
           = optimized_paths_taken (stats_ vm) + 1)
    /\ (instruction op = CALL ->
        stack_ vm' = of_number 42 :: stack_ vm
        /\ function_calls (stats_ vm') = function_calls (stats_ vm) + 1)
    /\ (instruction op <> LOAD_CONST -> instruction op <> ADD ->
        instruction op <> CALL -> vm' = vm).
Proof.
  unfold execute_instruction.
  destruct (step_effect op f pc vm) as (vm' & H & Hr & _ & Hi & Hs).
  exists vm'. split; [exact H|]. split; [exact Hr|]. split; [exact Hi|].
  split.
  { destruct Hs as [-> | [[v ->] | (a & b & rest & v & -> & ->)]];
      simpl length; lia. }
  unfold execute_instruction_simple in H. repeat split.
  - intros Ea Hl. rewrite Ea in H.
    destruct (2 <=? Z.of_nat (length (stack_ vm))) eqn:E;
      [apply Z.leb_le in E; lia | congruence].
  - rewrite H0 in H. unfold pop in H. rewrite H1 in H. simpl in H.
    replace (2 <=? Z.of_nat (S (S (length rest)))) with true in H
      by (symmetry; apply Z.leb_le; lia).
    injection H as <-. unfold execute_fast_add.
    destruct (is_number a && is_number b); reflexivity.
  - rewrite H0 in H. unfold pop in H. rewrite H1 in H. simpl in H.
    replace (2 <=? Z.of_nat (S (S (length rest)))) with true in H
      by (symmetry; apply Z.leb_le; lia).
    injection H as <-.
    destruct (is_number a && is_number b); reflexivity.
  - rewrite H0 in H. injection H as <-. reflexivity.
  - rewrite H0 in H. injection H as <-. reflexivity.
  - intros Hl Ha Hc. destruct (instruction op); congruence.
Qed.

End BytecodeRuns.

(** ** The tiering policy *)

Section TieringProperties.

Context {host : HostValue}.

Variable HOT_SPOT_THRESHOLD : Z.

(** The entries [should_jit_compile] counts. *)
Local Abbreviation hot := (fun entry : Z * Z => (HOT_SPOT_THRESHOLD <= entry.2)%Z).

Lemma total_hot_spots_counts (m : gmap Z Z) :
  Z.of_nat (size m) < 2 ^ 32 ->
  map_fold (fun (_ : Z) (count total : Z) =>
              if HOT_SPOT_THRESHOLD <=? count then wrap32 (total + 1) else total)
           0 m
  = Z.of_nat (size (filter hot m)).
Proof.
  apply (map_fold_weak_ind
           (fun r m => Z.of_nat (size m) < 2 ^ 32 ->
                       r = Z.of_nat (size (filter hot m)))).
  - intros _. rewrite map_filter_empty, map_size_empty. reflexivity.
  - clear m. intros i x m r Hi IH Hsize.
    rewrite map_size_insert_None in Hsize by exact Hi.
    specialize (IH ltac:(lia)).
    pose proof (map_subseteq_size _ _ (map_filter_subseteq hot m)) as Hle.
    destruct (HOT_SPOT_THRESHOLD <=? x) eqn:E.
    + apply Z.leb_le in E.
      rewrite map_filter_insert_True by exact E.
      rewrite map_size_insert_None
        by (apply map_lookup_filter_None; left; exact Hi).
      unfold wrap32. rewrite Z.mod_small by lia. lia.
    + apply Z.leb_gt in E.
      rewrite map_filter_insert_False by (simpl; lia).
      rewrite delete_id by exact Hi. exact IH.
Qed.

(** X8: when a function is eligible for promotion. For a function with
    fewer than 2^32 counters, [should_jit_compile] answers [true] exactly
    when at least three addresses have a count at or above the threshold;
    in particular never for a function with fewer than three counters, and
    never for a null function. *)
Theorem should_jit_compile_counts_hot_addresses (f : BytecodeFunction) :
  Z.of_nat (size (hot_spots f)) < 2 ^ 32 ->
  (should_jit_compile HOT_SPOT_THRESHOLD (Some f) = true
   <-> (3 <= size (filter (fun entry : Z * Z => (HOT_SPOT_THRESHOLD <= entry.2)%Z)
                          (hot_spots f)))%nat)
  /\ ((size (hot_spots f) < 3)%nat ->
      should_jit_compile HOT_SPOT_THRESHOLD (Some f) = false)
  /\ should_jit_compile HOT_SPOT_THRESHOLD None = false.
Proof.
  intros Hsize. unfold should_jit_compile.
  rewrite total_hot_spots_counts by exact Hsize.
  pose proof (map_subseteq_size _ _ (map_filter_subseteq hot (hot_spots f))) as Hle.
  repeat split.
  - intros H. apply Z.leb_le in H. lia.
  - intros H. apply Z.leb_le. lia.
  - intros H. apply Z.leb_gt. lia.
Qed.




End TieringProperties.

(** ** Variable-length integers *)

Lemma lor_below_pow2 (a b n : Z) :
  0 <= n -> 0 <= a < 2 ^ n -> 0 <= b < 2 ^ n -> 0 <= Z.lor a b < 2 ^ n.
Proof.
  intros Hn Ha Hb. split; [apply Z.lor_nonneg; lia|].
  destruct (Z.eq_dec a 0) as [->|Hza]; [rewrite Z.lor_0_l; lia|].
  destruct (Z.eq_dec b 0) as [->|Hzb]; [rewrite Z.lor_0_r; lia|].
  assert (0 <= Z.lor a b) by (apply Z.lor_nonneg; lia).
  assert (Z.lor a b <> 0) by (intros H1; apply Z.lor_eq_0_iff in H1; lia).
  apply Z.log2_lt_pow2; [lia|].
  rewrite Z.log2_lor by lia.
  apply Z.max_lub_lt; apply Z.log2_lt_pow2; lia.
Qed.

Lemma lor_shifted (x y n : Z) :
  0 <= n -> 0 <= x < 2 ^ n -> 0 <= y ->
  Z.lor x (Z.shiftl y n) = x + y * 2 ^ n.
Proof.
  intros Hn Hx Hy.
  assert (Hland : Z.land x (Z.shiftl y n) = 0).
  { apply Z.bits_inj'. intros k Hk. rewrite Z.land_spec, Z.bits_0.
    destruct (Z.lt_ge_cases k n) as [Hlt|Hge].
    - rewrite Z.shiftl_spec_low by lia. apply andb_false_r.
    - destruct (Z.eq_dec x 0) as [->|Hx0]; [rewrite Z.bits_0; reflexivity|].
      rewrite (Z.bits_above_log2 x k); [reflexivity | lia |].
      apply Z.lt_le_trans with n; [apply Z.log2_lt_pow2; lia | lia]. }
  rewrite <- Z.lxor_lor by exact Hland.
  rewrite <- Z.add_nocarry_lxor by exact Hland.
  rewrite Z.shiftl_mul_pow2 by lia. reflexivity.
Qed.

Lemma byte_low_bits (b : Byte.byte) :
  Z.land (byte_val b) 127 = byte_val b mod 128.
Proof. change 127 with (Z.ones 7). rewrite Z.land_ones by lia. reflexivity. Qed.

Lemma byte_high_bit (b : Byte.byte) :
  (Z.land (byte_val b) 128 =? 0) = (byte_val b <? 128).
Proof. destruct b; reflexivity. Qed.

Section LebProperties.

Import WasmModule.

Lemma read_leb128_u32_loop_below (ptr : list Byte.byte) :
  forall result shift,
    0 <= result < 2 ^ 32 ->
    0 <= (read_leb128_u32_loop ptr result shift).1 < 2 ^ 32.
Proof.
  induction ptr as [|b ptr IH]; intros result shift Hr; simpl; [exact Hr|].
  assert (Hl : 0 <= Z.lor result (wrap32 (Z.shiftl (Z.land (byte_val b) 127) shift))
               < 2 ^ 32).
  { apply lor_below_pow2; [lia | exact Hr |].
    unfold wrap32. apply Z.mod_pos_bound. lia. }
  destruct (Z.land _ _ =? 0); [exact Hl|].
  destruct (32 <=? _); [exact Hl|]. apply IH, Hl.
Qed.

Lemma read_leb128_u32_loop_takes_one (b : Byte.byte) (ptr : list Byte.byte) :
  forall result shift,
    (length (read_leb128_u32_loop (b :: ptr) result shift).2 <= length ptr)%nat.
Proof.
  assert (G : forall l r s, (length (read_leb128_u32_loop l r s).2 <= length l)%nat).
  { induction l as [|x l IHl]; intros r s; simpl; [lia|].
    destruct (Z.land _ _ =? 0); [simpl; lia|].
    destruct (32 <=? _); [simpl; lia|].
    etransitivity; [apply IHl | lia]. }
  intros result shift. simpl.
  destruct (Z.land _ _ =? 0); [simpl; lia|].
  destruct (32 <=? _); [simpl; lia|]. apply G.
Qed.

(** X10: the unsigned LEB128 reader. The value read fits in 32 bits; at
    most five bytes are taken, at least one when there is one, and what is
    left is a suffix of the input. A single byte below 128 is read as
    itself; a byte of 128 or more followed by a byte below 128 is read as
    [b0 - 128 + 128 * b1]. The interpreter's copy of the reader computes the
    same. *)
Theorem read_leb128_u32_reads (ptr : list Byte.byte) :
  0 <= (read_leb128_u32 ptr).1 < 2 ^ 32
  /\ (exists k : nat,
        (k <= 5)%nat /\ (ptr <> [] -> (1 <= k)%nat)
        /\ (read_leb128_u32 ptr).2 = drop k ptr)
  /\ WasmVM.read_leb128_u32 ptr = read_leb128_u32 ptr
  /\ (forall b rest,
        ptr = b :: rest -> byte_val b < 128 ->
        read_leb128_u32 ptr = (byte_val b, rest))
  /\ (forall b0 b1 rest,
        ptr = b0 :: b1 :: rest -> 128 <= byte_val b0 -> byte_val b1 < 128 ->
        read_leb128_u32 ptr = (byte_val b0 - 128 + 128 * byte_val b1, rest)).
Proof.
  unfold read_leb128_u32. split; [apply read_leb128_u32_loop_below; lia|].
  split.
  { destruct (read_leb128_u32_loop_consumes ptr 0 0) as (k & Hk & Hd); [lia|].
    change ((31 - 0) / 7) with 4 in Hk.
    exists k. split; [lia|]. split; [|exact Hd].
    intros Hne. destruct ptr as [|b ptr]; [congruence|].
    pose proof (read_leb128_u32_loop_takes_one b ptr 0 0) as Hl.
    rewrite Hd, length_drop in Hl. simpl in Hl. lia. }
  split.
  { unfold WasmVM.read_leb128_u32. generalize 0 at 1 3. generalize 0.
    induction ptr as [|b ptr IH]; intros s r; simpl; [reflexivity|].
    destruct (Z.land _ _ =? 0); [reflexivity|].
    destruct (32 <=? _); [reflexivity | apply IH]. }
  pose proof byte_val_range as Hrange.
  split.
  - intros b rest -> Hb. simpl.
    rewrite byte_high_bit, byte_low_bits.
    replace (byte_val b <? 128) with true by (symmetry; apply Z.ltb_lt; lia).
    rewrite Z.shiftl_0_r, Z.lor_0_l. unfold wrap32.
    specialize (Hrange b).
    rewrite (Z.mod_small (byte_val b) 128) by lia.
    rewrite Z.mod_small by lia. reflexivity.
  - intros b0 b1 rest -> H0 H1. simpl.
    rewrite !byte_high_bit, !byte_low_bits.
    replace (byte_val b0 <? 128) with false by (symmetry; apply Z.ltb_ge; lia).
    replace (byte_val b1 <? 128) with true by (symmetry; apply Z.ltb_lt; lia).
    simpl. rewrite Z.shiftl_0_r, Z.lor_0_l.
    pose proof (Hrange b0). pose proof (Hrange b1).
    assert (E0 : byte_val b0 mod 128 = byte_val b0 - 128).
    { Z.to_euclidean_division_equations. lia. }
    rewrite E0, (Z.mod_small (byte_val b1) 128) by lia.
    unfold wrap32. rewrite (Z.mod_small (byte_val b0 - 128)) by lia.
    rewrite Z.shiftl_mul_pow2 by lia.
    rewrite (Z.mod_small (byte_val b1 * 2 ^ 7)) by lia.
    rewrite <- Z.shiftl_mul_pow2 by lia.
    rewrite lor_shifted by lia. f_equal. lia.
Qed.

(** X11: [read_string] never reads past the end. The bytes of the string
    returned, followed by the bytes left unread, are exactly the input behind
    the length field. When the declared length exceeds what is left the
    result is the empty string and nothing behind the length field is
    consumed; otherwise the string holds exactly the declared number of
    bytes. *)
Theorem read_string_reads (ptr : list Byte.byte) :
  (read_leb128_u32 ptr).2
  = String.list_byte_of_string (read_string ptr).1 ++ (read_string ptr).2
  /\ (Z.of_nat (length (read_leb128_u32 ptr).2) < (read_leb128_u32 ptr).1 ->
      read_string ptr = (EmptyString, (read_leb128_u32 ptr).2))
  /\ ((read_leb128_u32 ptr).1 <= Z.of_nat (length (read_leb128_u32 ptr).2) ->
      Z.of_nat (length (String.list_byte_of_string (read_string ptr).1))
      = (read_leb128_u32 ptr).1
      /\ String.list_byte_of_string (read_string ptr).1
         = take (Z.to_nat (read_leb128_u32 ptr).1) (read_leb128_u32 ptr).2)
  /\ (length (read_string ptr).2 <= length ptr)%nat.
Proof.
  pose proof (proj1 (read_leb128_u32_loop_below ptr 0 0 ltac:(lia))) as Hnn.
  destruct (read_leb128_u32_loop_consumes ptr 0 0) as (k & _ & Hd); [lia|].
  fold (read_leb128_u32 ptr) in Hnn, Hd.
  unfold read_string. destruct (read_leb128_u32 ptr) as [n payload]; simpl in *.
  destruct (Z.of_nat (length payload) <? n) eqn:E; simpl.
  - apply Z.ltb_lt in E. repeat split; try lia.
    rewrite Hd, length_drop. lia.
  - apply Z.ltb_ge in E.
    rewrite String.list_byte_of_string_of_list_byte. repeat split; try lia.
    + rewrite take_drop. reflexivity.
    + rewrite length_take. lia.
    + rewrite length_drop, Hd, length_drop. lia.
Qed.

(** X12: the signed reader does not extend the sign. An immediate of one
    byte is read as that byte's value, 0 to 127, and one of two bytes as
    [b0 - 128 + 128 * b1], 0 to 16383: never a negative number. The byte
    0x7F, the signed LEB128 form of -1, is read as 127. The decoder's and
    the interpreter's copies of the reader agree. *)
Theorem read_leb128_i32_does_not_sign_extend :
  (forall b rest,
     byte_val b < 128 ->
     WasmVM.read_leb128_i32 (b :: rest) = (byte_val b, rest)
     /\ 0 <= byte_val b <= 127)
  /\ (forall b0 b1 rest,
        128 <= byte_val b0 -> byte_val b1 < 128 ->
        WasmVM.read_leb128_i32 (b0 :: b1 :: rest)
        = (byte_val b0 - 128 + 128 * byte_val b1, rest)
        /\ 0 <= byte_val b0 - 128 + 128 * byte_val b1 <= 16383)
  /\ (forall rest, WasmVM.read_leb128_i32 (Byte.x7f :: rest) = (127, rest))
  /\ (forall ptr, read_leb128_i32 ptr = WasmVM.read_leb128_i32 ptr).
Proof.
  pose proof byte_val_range as Hrange.
  unfold WasmVM.read_leb128_i32, read_leb128_i32. repeat split.
  - simpl. rewrite byte_high_bit, byte_low_bits.
    replace (byte_val b <? 128) with true by (symmetry; apply Z.ltb_lt; lia).
    simpl. rewrite Z.shiftl_0_r.
    specialize (Hrange b).
    rewrite (Z.mod_small (byte_val b) 128) by lia.
    rewrite sint32_small by (unfold INT32_MIN, INT32_MAX; lia). reflexivity.
  - apply Hrange.
  - lia.
  - simpl. rewrite !byte_high_bit, !byte_low_bits.
    replace (byte_val b0 <? 128) with false by (symmetry; apply Z.ltb_ge; lia).
    replace (byte_val b1 <? 128) with true by (symmetry; apply Z.ltb_lt; lia).
    simpl. rewrite Z.shiftl_0_r.
    pose proof (Hrange b0). pose proof (Hrange b1).
    assert (E0 : byte_val b0 mod 128 = byte_val b0 - 128)
      by (Z.to_euclidean_division_equations; lia).
    rewrite E0, (Z.mod_small (byte_val b1) 128) by lia.
    rewrite sint32_small by (unfold INT32_MIN, INT32_MAX; lia).
    rewrite Z.shiftl_mul_pow2 by lia.
    rewrite sint32_small by (unfold INT32_MIN, INT32_MAX; lia).
    rewrite <- Z.shiftl_mul_pow2 by lia.
    rewrite ?Z.lor_0_l. rewrite lor_shifted by lia. f_equal. lia.
  - pose proof (Hrange b0). pose proof (Hrange b1). lia.
  - pose proof (Hrange b0). pose proof (Hrange b1). lia.
Qed.

End LebProperties.

(** ** The section loop *)

Section DecoderRuns.

Import WasmModule.

Lemma parse_section_accepts (ptr ptr' : list Byte.byte) (section : WasmSection) :
  parse_section ptr = Some (section, ptr') ->
  (S (length (data section)) + length ptr' <= length ptr)%nat
  /\ 0 <= id section < 256
  /\ 0 <= size section < 2 ^ 32
  /\ Z.of_nat (length (data section)) = size section.
Proof.
  destruct ptr as [|b rest]; [discriminate|]. unfold parse_section.
  pose proof (read_leb128_u32_loop_below rest 0 0 ltac:(lia)) as Hb.
  destruct (read_leb128_u32_loop_consumes rest 0 0) as (k & _ & Hd); [lia|].
  fold (read_leb128_u32 rest) in Hb, Hd.
  destruct (read_leb128_u32 rest) as [sz payload]; simpl in *.
  destruct (Z.of_nat (length payload) <? sz) eqn:E; [discriminate|].
  apply Z.ltb_ge in E. intros H. injection H as <- <-. simpl.
  pose proof (byte_val_range b).
  rewrite length_take, length_drop. subst payload. rewrite length_drop in *.
  repeat split; lia.
Qed.

Lemma set_sections_same (m : t) : set_sections m (sections_ m ++ []) = m.
Proof. destruct m. unfold set_sections. simpl. rewrite app_nil_r. reflexivity. Qed.

(** What the loop does from [ptr] on: it extends [sections_] by well-formed
    sections that fit in the input, and accepts exactly when whole sections
    tile the input. *)
Lemma parse_sections_loop_spec (n : nat) :
  forall (ptr : list Byte.byte) (m : t),
    (length ptr <= n)%nat ->
    exists ok new,
      parse_sections_loop ptr m = (ok, set_sections m (sections_ m ++ new))
      /\ Forall (fun s => 0 <= id s < 256 /\ 0 <= size s < 2 ^ 32
                          /\ Z.of_nat (length (data s)) = size s) new
      /\ (sum_list_with (fun s => S (length (data s))) new <= length ptr)%nat
      /\ (ok = true <-> section_start ptr [])
      /\ (ok = false -> exists b tail, section_start ptr (b :: tail)
                                       /\ parse_section (b :: tail) = None).
Proof.
  induction n as [|n IH]; intros ptr m Hlen.
  - destruct ptr as [|b rest]; [|simpl in Hlen; lia].
    exists true, []. simp parse_sections_loop. rewrite set_sections_same.
    repeat split; try (constructor || discriminate); try (simpl; lia).
  - destruct ptr as [|b rest].
    { exists true, []. simp parse_sections_loop. rewrite set_sections_same.
      repeat split; try (constructor || discriminate); try (simpl; lia). }
    rewrite parse_sections_loop_cons.
    destruct (parse_section (b :: rest)) as [[section ptr']|] eqn:Ep.
    + destruct (parse_section_accepts _ _ _ Ep) as (Hfit & Hwf).
      destruct (IH ptr' (set_sections m (sections_ m ++ [section])))
        as (ok & new & -> & Hall & Hsum & Hok & Hbad); [simpl in *; lia|].
      exists ok, (section :: new). simpl sections_.
      rewrite <- app_assoc. simpl. repeat split.
      * apply Forall_cons. split; assumption.
      * simpl in *. lia.
      * intros H. eapply start_after; [exact Ep | apply Hok, H].
      * intros H. apply Hok. inversion H as [|? ? ? ? Hp Hs]; subst.
        rewrite Ep in Hp. injection Hp as <- <-. exact Hs.
      * intros H. destruct (Hbad H) as (b' & tail & Hs & Hn).
        exists b', tail. split; [eapply start_after; eassumption | exact Hn].
    + exists false, []. rewrite set_sections_same. repeat split.
      * constructor.
      * simpl. lia.
      * discriminate.
      * intros H. inversion H as [|? ? ? ? Hp Hs]; subst. congruence.
      * intros _. exists b, rest. split; [constructor | exact Ep].
Qed.

Lemma parse_binary_spec (m : t) :
  ((Z.of_nat (length (binary_data_ m)) <? 8) || negb (parse_header m) = true
   /\ parse_binary m = (false, m))
  \/ ((Z.of_nat (length (binary_data_ m)) <? 8) || negb (parse_header m) = false
      /\ exists ok new, parse_binary m = (ok, set_sections m new)).
Proof.
  unfold parse_binary.
  destruct (Z.of_nat (length (binary_data_ m)) <? 8) eqn:El;
    [left; split; reflexivity|].
  destruct (parse_header m) eqn:Eh; [|left; split; reflexivity].
  right. split; [reflexivity|]. unfold parse_sections.
  destruct (parse_sections_loop_spec _ (drop 8 (binary_data_ m))
              (set_sections m []) (le_n _)) as (ok & new & -> & _).
  exists ok, new. reflexivity.
Qed.

(** X13: [compile] can be repeated. Compiling the module that [compile]
    left behind gives the same verdict and the same module again: after a
    success nothing is decoded a second time, and after a failure the
    sections recorded before the failure are discarded and decoded anew, with
    the same outcome. The input bytes are never changed, and a module is
    marked compiled exactly when [compile] succeeded. *)
Theorem compile_is_repeatable (m : t) :
  compile (compile m).2 = compile m
  /\ binary_data_ (compile m).2 = binary_data_ m
  /\ ((compile m).1 = true -> is_compiled_ (compile m).2 = true)
  /\ (is_compiled_ m = false -> is_compiled_ (compile m).2 = (compile m).1).
Proof.
  unfold compile. destruct (is_compiled_ m) eqn:Ec.
  { simpl. rewrite Ec. repeat split; try discriminate; try congruence. }
  destruct (parse_binary_spec m) as [[Eb Hp] | [Eb (ok & new & Hp)]]; rewrite Hp.
  - simpl. rewrite Ec, Hp. repeat split; try discriminate; try congruence.
  - apply orb_false_iff in Eb. destruct Eb as [El Eh].
    apply negb_false_iff in Eh.
    destruct ok; simpl; [repeat split|].
    split; [|repeat split; try discriminate; intros; assumption].
    rewrite Ec. unfold parse_binary in *. simpl binary_data_.
    change (parse_header (set_sections m new)) with (parse_header m).
    rewrite El, Eh in *. simpl in *.
    unfold parse_sections in *. simpl binary_data_.
    change (set_sections (set_sections m new) []) with (set_sections m []).
    rewrite Hp. reflexivity.
Qed.

(** X14: which inputs the decoder accepts. Behind a valid header, [compile]
    succeeds exactly when whole sections tile the rest of the input, and
    fails exactly when the decoder arrives at a section whose declared size
    exceeds what is left. Every section recorded, on success or before a
    failure, has an id below 256, a size below 2^32 and exactly [size]
    payload bytes, and the sections together (one id byte and the payload
    each) take no more than the input behind the header. *)
Theorem decoder_accepts_whole_sections (m : t) :
  is_compiled_ m = false ->
  take 8 (binary_data_ m) = WASM_MAGIC ++ WASM_VERSION ->
  ((compile m).1 = true <-> section_start (drop 8 (binary_data_ m)) [])
  /\ ((compile m).1 = false <->
      exists b tail, section_start (drop 8 (binary_data_ m)) (b :: tail)
                     /\ parse_section (b :: tail) = None)
  /\ Forall (fun s => 0 <= id s < 256 /\ 0 <= size s < 2 ^ 32
                      /\ Z.of_nat (length (data s)) = size s)
            (sections_ (compile m).2)
  /\ (sum_list_with (fun s => S (length (data s))) (sections_ (compile m).2)
      + 8 <= length (binary_data_ m))%nat.
Proof.
  intros Hc Hh.
  destruct (valid_header_prefix _ Hh) as (Hlen & Hm & Hv).
  unfold compile. rewrite Hc, (parse_binary_good_header m Hlen Hm Hv).
  unfold parse_sections.
  destruct (parse_sections_loop_spec _ (drop 8 (binary_data_ m))
              (set_sections m []) (le_n _))
    as (ok & new & Hl & Hall & Hsum & Hok & Hbad).
  rewrite Hl. rewrite length_drop in Hsum.
  assert (Hfalse : ok = false <->
                   exists b tail, section_start (drop 8 (binary_data_ m)) (b :: tail)
                                  /\ parse_section (b :: tail) = None).
  { split; [exact Hbad|]. intros (b & tail & Hs & Hn).
    destruct (truncated_section_stops_loop _ _ Hs) with (m := set_sections m [])
      as (m' & Hl' & _); [discriminate | exact Hn |]. congruence. }
  destruct ok; simpl; repeat split; try tauto; try lia; try assumption;
    try (intros; discriminate).
Qed.

End DecoderRuns.

(** ** The module interpreter, instruction by instruction *)

Lemma vm_read_leb128_u32_single (b : Byte.byte) (p : list Byte.byte) :
  byte_val b < 128 -> WasmVM.read_leb128_u32 (b :: p) = (byte_val b, p).
Proof.
  intros Hb. pose proof (byte_val_range b) as Hr.
  unfold WasmVM.read_leb128_u32. simpl.
  rewrite byte_high_bit, byte_low_bits.
  replace (byte_val b <? 128) with true by (symmetry; apply Z.ltb_lt; lia).
  rewrite Z.shiftl_0_r, Z.lor_0_l. unfold wrap32.
  rewrite (Z.mod_small (byte_val b) 128) by lia.
  rewrite Z.mod_small by lia. reflexivity.
Qed.

Section InterpreterSteps.

Import WasmVM.

Context {host : HostValue} {rep : WasmValueRep}.

(** X15: what one instruction can do to a frame. The number of locals
    never changes and the stack depth changes by at most one. An instruction
    that stops the frame (a [RETURN] or [END], an arithmetic instruction
    short of operands, a local index out of range, the end of the code)
    leaves operand stack and locals exactly as they were, so the value the
    frame returns is the one on top before that instruction. Every
    instruction takes at least its opcode byte. *)
Theorem instruction_frame_invariants (frame : ExecutionFrame) :
  let r := execute_instruction frame in
  length (locals r.2) = length (locals frame)
  /\ Z.of_nat (length (stack frame)) - 1 <= Z.of_nat (length (stack r.2))
     <= Z.of_nat (length (stack frame)) + 1
  /\ (r.1 = false -> stack r.2 = stack frame /\ locals r.2 = locals frame)
  /\ (pc frame = [] -> r = (false, frame))
  /\ (pc frame <> [] -> (length (pc r.2) < length (pc frame))%nat).
Proof.
  destruct frame as [fpc flocals fstack]. unfold execute_instruction. simpl.
  destruct fpc as [|b p].
  { simpl. repeat split; try lia; try congruence. }
  pose proof (read_leb128_u32_loop_length p 0 0) as Hu.
  pose proof (read_leb128_i32_loop_length p 0 0) as Hi.
  destruct (opcode_of_byte b);
    unfold handle_i32_const, handle_i32_add, handle_i32_sub, handle_i32_mul,
      handle_f32_add, handle_f64_add, handle_local_get, handle_local_set,
      handle_return, read_leb128_u32, read_leb128_i32; simpl;
    repeat match goal with
           | |- context [read_leb128_u32_loop p 0 0] =>
               destruct (read_leb128_u32_loop p 0 0); simpl in *
           | |- context [read_leb128_i32_loop p 0 0] =>
               destruct (read_leb128_i32_loop p 0 0); simpl in *
           | |- context [match ?l with [] => _ | _ :: _ => _ end] =>
               destruct l; simpl
           | |- context [match ?o with Some _ => _ | None => _ end] =>
               destruct o; simpl
           | |- context [if ?c then _ else _] => destruct c; simpl
           end;
    rewrite ?length_insert;
    repeat split; try lia; try congruence; try discriminate.
Qed.

(** X16: a local written is the local read. With a one-byte index below the
    number of locals, [LOCAL_SET i] moves the top of the stack into local
    [i] and leaves the other locals alone, and [LOCAL_GET i] right after it
    pushes that value back. With an index at or beyond the number of locals,
    both instructions stop the frame and change neither stack nor locals. *)
Theorem local_set_then_get (set_ get_ i : Byte.byte) (p : list Byte.byte)
    (l : list WasmValue) (v : WasmValue) (rest : list WasmValue) :
  opcode_of_byte set_ = LOCAL_SET ->
  opcode_of_byte get_ = LOCAL_GET ->
  byte_val i < 128 ->
  ((Z.to_nat (byte_val i) < length l)%nat ->
   execute_instruction
     {| pc := set_ :: i :: get_ :: i :: p; locals := l; stack := v :: rest |}
   = (true, {| pc := get_ :: i :: p;
               locals := <[Z.to_nat (byte_val i) := v]> l; stack := rest |})
   /\ execute_instruction
        {| pc := get_ :: i :: p;
           locals := <[Z.to_nat (byte_val i) := v]> l; stack := rest |}
      = (true, {| pc := p; locals := <[Z.to_nat (byte_val i) := v]> l;
                  stack := v :: rest |})
   /\ forall j, j <> Z.to_nat (byte_val i) ->
                <[Z.to_nat (byte_val i) := v]> l !! j = l !! j)
  /\ ((length l <= Z.to_nat (byte_val i))%nat ->
      execute_instruction
        {| pc := set_ :: i :: p; locals := l; stack := v :: rest |}
      = (false, {| pc := p; locals := l; stack := v :: rest |})
      /\ execute_instruction
           {| pc := get_ :: i :: p; locals := l; stack := v :: rest |}
         = (false, {| pc := p; locals := l; stack := v :: rest |})).
Proof.
  intros Hset Hget Hi. pose proof (byte_val_range i) as Hr. split.
  - intros Hlt. repeat split.
    + unfold execute_instruction, handle_local_set. cbn [pc]. rewrite Hset.
      simpl. rewrite (vm_read_leb128_u32_single i _ Hi). simpl.
      replace (Z.of_nat (length l) <=? byte_val i) with false
        by (symmetry; apply Z.leb_gt; lia).
      reflexivity.
    + unfold execute_instruction, handle_local_get. cbn [pc]. rewrite Hget.
      simpl. rewrite (vm_read_leb128_u32_single i _ Hi). simpl.
      rewrite list_lookup_insert_eq by lia. reflexivity.
    + intros j Hj. apply list_lookup_insert_ne. congruence.
  - intros Hge. split.
    + unfold execute_instruction, handle_local_set. cbn [pc]. rewrite Hset.
      simpl. rewrite (vm_read_leb128_u32_single i _ Hi). simpl.
      replace (Z.of_nat (length l) <=? byte_val i) with true
        by (symmetry; apply Z.leb_le; lia).
      reflexivity.
    + unfold execute_instruction, handle_local_get. cbn [pc]. rewrite Hget.
      simpl. rewrite (vm_read_leb128_u32_single i _ Hi). simpl.
      rewrite lookup_ge_None_2 by lia. reflexivity.
Qed.

(** X17: bytes that are no instruction are skipped. In front of code that
    is not empty, a [NOP] or any byte outside the instruction set changes
    nothing in what [execute_function] returns. *)
Theorem unsupported_bytes_are_skipped (call_stack_ : list ExecutionFrame)
    (b : Byte.byte) (code : list Byte.byte) (args : list Value) :
  opcode_of_byte b = NOP \/ opcode_of_byte b = UNSUPPORTED ->
  code <> [] ->
  execute_function call_stack_ (b :: code) args
  = execute_function call_stack_ code args.
Proof.
  intros Hop Hne. destruct code as [|c code]; [congruence|].
  unfold execute_function.
  change (length (b :: c :: code)) with (S (length (c :: code))).
  cbn [execute_loop pc]. unfold execute_instruction. cbn [pc].
  destruct Hop as [-> | ->]; reflexivity.
Qed.

End InterpreterSteps.

(** ** Instances and their exports *)

Section ExportProperties.

Import WasmVM.

Context {host : HostValue} {rep : WasmValueRep}.

(** The 32-bit integer an argument becomes as a local. *)
Local Abbreviation arg_i32 arg :=
  (if is_number arg then int_of_double (as_number arg) else 0).

Lemma i32_local_of_arg (wl : WasmValueLaws rep) (arg : Value) :
  i32 (local_of_arg arg) = arg_i32 arg.
Proof.
  unfold local_of_arg. destruct (is_number arg).
  - apply i32_set_i32, int_of_double_range.
  - apply i32_default.
Qed.

Lemma instantiate_ready (inst0 inst : WasmInstance.t) :
  WasmInstance.instantiate inst0 = (true, inst) ->
  exists cs m,
    WasmInstance.vm_ inst = Some cs
    /\ WasmInstance.module_ inst = Some m
    /\ WasmModule.is_compiled_ m = true.
Proof.
  unfold WasmInstance.instantiate.
  destruct (WasmInstance.module_ inst0) as [m|] eqn:Em; [|discriminate].
  destruct (WasmModule.is_compiled_ m) eqn:Ec; [|discriminate].
  simpl. intros H. injection H as <-. simpl.
  destruct (WasmInstance.vm_ inst0); eauto.
Qed.

Lemma run_template_keeps_instance (inst : WasmInstance.t)
    (cs : list ExecutionFrame) (code : list Byte.byte) (args : list Value)
    (v : Value) :
  WasmInstance.vm_ inst = Some cs ->
  execute_function cs code args = Ok (v, cs) ->
  WasmInstance.run_template inst cs code args = Ok (v, inst).
Proof.
  intros Hvm Hx. unfold WasmInstance.run_template. rewrite Hx.
  destruct inst; simpl in *. subst. reflexivity.
Qed.

(** X18: what the three exports compute. On an instance that [instantiate]
    has accepted, "add" and "multiply" return the sum and the product of
    their first two arguments, each truncated to a 32-bit integer (an
    argument that is not a number counts as 0), with wrap-around; further
    arguments are ignored and the order of the two does not matter.
    "const42" returns 42 whatever it is given. With a single argument both
    "add" and "multiply" return that argument, and with none they return 0.
    The instance is left as it was. *)
Theorem export_results (wl : WasmValueLaws rep) (inst0 inst : WasmInstance.t) :
  WasmInstance.instantiate inst0 = (true, inst) ->
  (forall a1 a2 more,
     WasmInstance.call_exported_function inst "add" (a1 :: a2 :: more)
     = Ok (of_number (double_of_int (sint32 (arg_i32 a1 + arg_i32 a2))), inst)
     /\ WasmInstance.call_exported_function inst "multiply" (a1 :: a2 :: more)
        = Ok (of_number (double_of_int (sint32 (arg_i32 a1 * arg_i32 a2))), inst)
     /\ WasmInstance.call_exported_function inst "add" [a2; a1]
        = WasmInstance.call_exported_function inst "add" (a1 :: a2 :: more)
     /\ WasmInstance.call_exported_function inst "multiply" [a2; a1]
        = WasmInstance.call_exported_function inst "multiply" (a1 :: a2 :: more))
  /\ (forall args,
        WasmInstance.call_exported_function inst "const42" args
        = Ok (of_number 42, inst))
  /\ (forall a1,
        WasmInstance.call_exported_function inst "add" [a1]
        = Ok (of_number (double_of_int (arg_i32 a1)), inst)
        /\ WasmInstance.call_exported_function inst "multiply" [a1]
           = Ok (of_number (double_of_int (arg_i32 a1)), inst))
  /\ WasmInstance.call_exported_function inst "add" [] = Ok (of_number 0, inst)
  /\ WasmInstance.call_exported_function inst "multiply" [] = Ok (of_number 0, inst).
Proof.
  intros Hinst.
  destruct (instantiate_ready _ _ Hinst) as (cs & m & Hvm & Hm & Hc).
  assert (Hadd : forall a1 a2 more,
            WasmInstance.call_exported_function inst "add" (a1 :: a2 :: more)
            = Ok (of_number (double_of_int (sint32 (arg_i32 a1 + arg_i32 a2))), inst)).
  { intros a1 a2 more. unfold WasmInstance.call_exported_function.
    rewrite Hvm, Hm, Hc. simpl negb. cbv iota.
    change (String.eqb "add" "add") with true. cbv iota.
    apply run_template_keeps_instance; [exact Hvm|].
    rewrite <- !(i32_local_of_arg wl).
    rewrite <- (i32_of_i32 (sint32 _)) by apply sint32_range.
    reflexivity. }
  assert (Hmul : forall a1 a2 more,
            WasmInstance.call_exported_function inst "multiply" (a1 :: a2 :: more)
            = Ok (of_number (double_of_int (sint32 (arg_i32 a1 * arg_i32 a2))), inst)).
  { intros a1 a2 more. unfold WasmInstance.call_exported_function.
    rewrite Hvm, Hm, Hc. simpl negb. cbv iota.
    change (String.eqb "multiply" "add") with false.
    change (String.eqb "multiply" "multiply") with true. cbv iota.
    apply run_template_keeps_instance; [exact Hvm|].
    rewrite <- !(i32_local_of_arg wl).
    rewrite <- (i32_of_i32 (sint32 _)) by apply sint32_range.
    reflexivity. }
  split; [|split; [|split; [|split]]].
  - intros a1 a2 more. split; [apply Hadd|]. split; [apply Hmul|].
    rewrite !Hadd, !Hmul.
    split; [rewrite Z.add_comm | rewrite Z.mul_comm]; reflexivity.
  - intros args. unfold WasmInstance.call_exported_function.
    rewrite Hvm, Hm, Hc. simpl negb. cbv iota.
    change (String.eqb "const42" "add") with false.
    change (String.eqb "const42" "multiply") with false.
    change (String.eqb "const42" "const42") with true. cbv iota.
    apply run_template_keeps_instance; [exact Hvm|].
    replace (of_number 42) with (of_number (double_of_int (i32 (wv_of_i32 42))))
      by (rewrite i32_of_i32 by (unfold INT32_MIN, INT32_MAX; lia); reflexivity).
    reflexivity.
  - intros a1. unfold WasmInstance.call_exported_function.
    rewrite Hvm, Hm, Hc. simpl negb. cbv iota.
    change (String.eqb "add" "add") with true.
    change (String.eqb "multiply" "add") with false.
    change (String.eqb "multiply" "multiply") with true. cbv iota.
    split; (apply run_template_keeps_instance; [exact Hvm|]);
      rewrite <- (i32_local_of_arg wl); reflexivity.
  - unfold WasmInstance.call_exported_function.
    rewrite Hvm, Hm, Hc. simpl negb. cbv iota.
    change (String.eqb "add" "add") with true. cbv iota.
    apply run_template_keeps_instance; [exact Hvm|].
    replace (of_number 0) with (of_number (double_of_int (i32 wv_default)))
      by (rewrite i32_default; reflexivity).
    reflexivity.
  - unfold WasmInstance.call_exported_function.
    rewrite Hvm, Hm, Hc. simpl negb. cbv iota.
    change (String.eqb "multiply" "add") with false.
    change (String.eqb "multiply" "multiply") with true. cbv iota.
    apply run_template_keeps_instance; [exact Hvm|].
    replace (of_number 0) with (of_number (double_of_int (i32 wv_default)))
      by (rewrite i32_default; reflexivity).
    reflexivity.
Qed.

(** X19: when an export answers with the default value. Without an
    interpreter (before [instantiate]), without a module, or with a module
    that is not compiled, every export call returns the host's default value;
    so does a call of any name other than "add", "multiply" and "const42".
    In each case the instance is left as it was. *)
Theorem export_without_result (inst : WasmInstance.t) (name : string)
    (args : list Value) :
  (WasmInstance.vm_ inst = None
   \/ WasmInstance.module_ inst = None
   \/ (exists m, WasmInstance.module_ inst = Some m
                 /\ WasmModule.is_compiled_ m = false) ->
   WasmInstance.call_exported_function inst name args = Ok (undefined, inst))
  /\ (name <> "add" -> name <> "multiply" -> name <> "const42" ->
      WasmInstance.call_exported_function inst name args = Ok (undefined, inst)).
Proof.
  unfold WasmInstance.call_exported_function. split.
  - intros [Hv | [Hm | (m & Hm & Hc)]].
    + rewrite Hv. reflexivity.
    + rewrite Hm. destruct (WasmInstance.vm_ inst); reflexivity.
    + rewrite Hm, Hc. destruct (WasmInstance.vm_ inst); reflexivity.
  - intros Ha Hm Hc.
    apply String.eqb_neq in Ha, Hm, Hc. rewrite Ha, Hm, Hc.
    destruct (WasmInstance.vm_ inst), (WasmInstance.module_ inst) as [m|];
      try reflexivity.
    destruct (negb (WasmModule.is_compiled_ m)); reflexivity.
Qed.

(** X20: [instantiate] succeeds exactly on a compiled module and can be
    repeated. It fails, changing nothing, when the module is missing or not
    compiled. On success it keeps the module, keeps a memory and an
    interpreter that are already there, and otherwise creates the default
    memory (1 page, at most 1024) and an interpreter with an empty call
    stack; calling it again returns the same result and instance. An
    instance built on what [WasmModule.compile] left behind is accepted
    exactly when that compilation succeeded. *)
Theorem instantiate_is_repeatable (inst : WasmInstance.t) :
  let r := WasmInstance.instantiate inst in
  (r.1 = true <-> exists m, WasmInstance.module_ inst = Some m
                            /\ WasmModule.is_compiled_ m = true)
  /\ (r.1 = false -> r.2 = inst)
  /\ WasmInstance.instantiate r.2 = r
  /\ WasmInstance.module_ r.2 = WasmInstance.module_ inst
  /\ (r.1 = true ->
      WasmInstance.memory_ r.2
      = Some (default (WasmMemory.new 1 1024) (WasmInstance.memory_ inst))
      /\ WasmInstance.vm_ r.2 = Some (default [] (WasmInstance.vm_ inst)))
  /\ (forall bytes,
        (WasmInstance.instantiate
           {| WasmInstance.module_ :=
                Some (WasmModule.compile (WasmModule.new bytes)).2;
              WasmInstance.memory_ := WasmInstance.memory_ inst;
              WasmInstance.vm_ := WasmInstance.vm_ inst |}).1
        = (WasmModule.compile (WasmModule.new bytes)).1).
Proof.
  unfold WasmInstance.instantiate.
  split; [|split; [|split; [|split; [|split]]]].
  - destruct (WasmInstance.module_ inst) as [m|]; simpl.
    + destruct (WasmModule.is_compiled_ m) eqn:Ec; simpl.
      * split; [eauto | reflexivity].
      * split; [discriminate|]. intros (m' & Hm & Hc). congruence.
    + split; [discriminate|]. intros (m' & Hm & _). discriminate.
  - destruct (WasmInstance.module_ inst) as [m|]; [|reflexivity].
    destruct (WasmModule.is_compiled_ m); [discriminate | reflexivity].
  - destruct (WasmInstance.module_ inst) as [m|] eqn:Em; cbn [fst snd];
      [|rewrite Em; reflexivity].
    destruct (WasmModule.is_compiled_ m) eqn:Ec; cbn [fst snd negb];
      [|rewrite Em, Ec; reflexivity].
    cbn [WasmInstance.module_]. rewrite Ec. cbn [negb].
    destruct (WasmInstance.memory_ inst), (WasmInstance.vm_ inst); reflexivity.
  - destruct (WasmInstance.module_ inst) as [m|] eqn:Em; [|exact Em].
    destruct (WasmModule.is_compiled_ m); [reflexivity | exact Em].
  - destruct (WasmInstance.module_ inst) as [m|]; [|discriminate].
    destruct (WasmModule.is_compiled_ m); [|discriminate]. simpl. intros _.
    destruct (WasmInstance.memory_ inst), (WasmInstance.vm_ inst); split; reflexivity.
  - intros bytes. simpl.
    set (m0 := WasmModule.new bytes).
    assert (Hflag : WasmModule.is_compiled_ (WasmModule.compile m0).2
                    = (WasmModule.compile m0).1).
    { unfold WasmModule.compile. change (WasmModule.is_compiled_ m0) with false.
      cbv iota.
      destruct (parse_binary_spec m0) as [[_ ->] | [_ (ok & new & ->)]];
        [reflexivity|].
      destruct ok; reflexivity. }
    rewrite Hflag. destruct (WasmModule.compile m0).1; reflexivity.
Qed.

End ExportProperties.

(** ** Linear memory: pages and bytes *)

(** X21: pages in, pages out. A memory built with a page count that fits
    32 bits has that many pages of 65536 bytes, whatever its maximum. For a
    request that does not wrap around 32 bits, [grow] answers [true] exactly
    when the page count plus the request stays within the maximum. *)
Theorem memory_pages (initial maximum delta : Z) :
  0 <= initial < 2 ^ 32 ->
  WasmMemory.size (WasmMemory.new initial maximum) = initial
  /\ WasmMemory.buffer_ (WasmMemory.new initial maximum)
     = Some {| WasmMemory.byte_length := initial * 65536 |}
  /\ (0 <= delta -> initial + delta < 2 ^ 32 ->
      ((WasmMemory.grow (WasmMemory.new initial maximum) delta).1 = true
       <-> initial + delta <= maximum)).
Proof.
  intros Hi.
  assert (Hs : WasmMemory.size (WasmMemory.new initial maximum) = initial).
  { unfold WasmMemory.size, WasmMemory.new, WasmMemory.PAGE_SIZE. simpl.
    rewrite Z.div_mul by lia. unfold wrap32. apply Z.mod_small. lia. }
  split; [exact Hs|]. split; [reflexivity|].
  intros Hd Hsum. unfold WasmMemory.grow. rewrite Hs.
  unfold wrap32. rewrite Z.mod_small by lia.
  change (WasmMemory.maximum_pages_ (WasmMemory.new initial maximum)) with maximum.
  destruct (maximum <? initial + delta) eqn:E; simpl.
  - apply Z.ltb_lt in E. split; [discriminate | lia].
  - apply Z.ltb_ge in E. split; [lia | reflexivity].
Qed.

(** ** Closed instances for the further properties *)

(** The function with a [NOP] and the function without it return the same. *)
Lemma dead_code_elimination_preserves_execution_witness :
  exists v vm1 vm2,
    execute (Some nop_call_function) [] (new_vm (host := RefHost.host))
    = Ok (v, Some nop_call_function, vm1)
    /\ execute (Some (dead_code_elimination_pass nop_call_function)) [] (new_vm (host := RefHost.host))
       = Ok (v, Some (dead_code_elimination_pass nop_call_function), vm2)
    /\ stack_ vm1 = stack_ vm2
    /\ registers_ vm1 = registers_ vm2
    /\ instructions_executed (stats_ vm2) <= instructions_executed (stats_ vm1).
Proof.
  apply (dead_code_elimination_preserves_execution
           nop_call_function (dead_code_elimination_pass nop_call_function)
           0 [] (new_vm (host := RefHost.host)) (or_introl eq_refl)).
  reflexivity.
Defined.

(** The [CALL] behind the [RETURN] is not executed: three instructions are
    retired. *)
Lemma execution_stops_at_first_return_witness :
  exists v vm',
    execute (Some early_return_function) [] (new_vm (host := RefHost.host))
    = Ok (v, Some early_return_function, vm')
    /\ instructions_executed (stats_ vm')
       = instructions_executed (stats_ (new_vm (host := RefHost.host))) + Z.of_nat 2 + 1
    /\ execute (Some (set_instructions early_return_function
                        (instructions nop_call_function))) [] (new_vm (host := RefHost.host))
       = Ok (v, Some (set_instructions early_return_function
                        (instructions nop_call_function)), vm').
Proof.
  apply (proj1 (execution_stops_at_first_return early_return_function [] (new_vm (host := RefHost.host))
                  eq_refl)
           [{| instruction := NOP; operands := [] |};
            {| instruction := CALL;
               operands := [{| operand_type := IMMEDIATE; value := 0 |}] |}]
           {| instruction := RETURN; operands := [] |}
           [{| instruction := CALL;
               operands := [{| operand_type := IMMEDIATE; value := 0 |}] |}]).
  - reflexivity.
  - repeat constructor.
  - reflexivity.
Defined.

(** Three arguments to a function of two parameters and three registers. *)
Lemma execute_register_file_witness :
  exists v vm',
    execute (Some two_parameter_function)
      [of_number 1; of_number 2; of_number 3] (new_vm (host := RefHost.host))
    = Ok (v, Some two_parameter_function, vm')
    /\ length (registers_ vm') = 3%nat
    /\ forall j : nat,
         (j < 3)%nat ->
         registers_ vm' !! j
         = Some (if decide ((j < 3)%nat /\ Z.of_nat j < 2)
                 then default undefined
                        ([of_number 1; of_number 2; of_number 3] !! j)
                 else undefined).
Proof.
  apply (execute_register_file two_parameter_function
           [of_number 1; of_number 2; of_number 3] (new_vm (host := RefHost.host))).
  reflexivity.
Defined.

(** Compiling and executing a binary expression in the reference host. *)
Lemma compile_then_execute_witness :
  exists g vm',
    compile (host := RefHost.host) new_compiler
      (Some {| get_type := BINARY_EXPRESSION; evaluate := undefined |}) "f"
    = (Some g, reset_registers new_compiler)
    /\ execute (Some g) [] (new_vm (host := RefHost.host)) = Ok (of_number 3, Some g, vm')
    /\ stack_ vm' = []
    /\ registers_ vm' = [].
Proof.
  exact (compile_then_execute (host := RefHost.host) RefHost_laws new_compiler
           {| get_type := BINARY_EXPRESSION; evaluate := undefined |} "f" []
           (new_vm (host := RefHost.host))).
Defined.

(** Three addresses at the threshold 5. *)
Lemma should_jit_compile_counts_hot_addresses_witness :
  should_jit_compile 5 (Some hot_function) = true
  <-> (3 <= size (filter (fun entry : Z * Z => (5 <= entry.2)%Z)
                         (hot_spots hot_function)))%nat.
Proof.
  apply (should_jit_compile_counts_hot_addresses 5 hot_function).
  vm_compute. reflexivity.
Defined.


(** The module whose second section is cut short is refused. *)
Lemma decoder_accepts_whole_sections_witness :
  (WasmModule.compile (WasmModule.new truncated_module_bytes)).1 = false
  <-> exists b tail,
        WasmModule.section_start (drop 8 truncated_module_bytes) (b :: tail)
        /\ WasmModule.parse_section (b :: tail) = None.
Proof.
  apply (decoder_accepts_whole_sections (WasmModule.new truncated_module_bytes));
    reflexivity.
Defined.

(** Local 0 of one local, written and read back. *)
Lemma local_set_then_get_witness :
  WasmVM.execute_instruction (rep := RefWasmValue.rep)
    {| WasmVM.pc := [Byte.x21; Byte.x00; Byte.x20; Byte.x00];
       WasmVM.locals := [wv_default]; WasmVM.stack := [wv_of_i32 7] |}
  = (true, {| WasmVM.pc := [Byte.x20; Byte.x00];
              WasmVM.locals := [wv_of_i32 7]; WasmVM.stack := [] |}).
Proof.
  exact (proj1 (proj1 (local_set_then_get (rep := RefWasmValue.rep)
                         Byte.x21 Byte.x20 Byte.x00 [] [wv_default] (wv_of_i32 7) []
                         eq_refl eq_refl ltac:(vm_compute; reflexivity))
                  ltac:(vm_compute; lia))).
Defined.

(** A [NOP] in front of the "const42" template. *)
Lemma unsupported_bytes_are_skipped_witness :
  WasmVM.execute_function (host := RefHost.host) (rep := RefWasmValue.rep) []
    (Byte.x01 :: WasmInstance.const42_template) []
  = WasmVM.execute_function (host := RefHost.host) (rep := RefWasmValue.rep) []
      WasmInstance.const42_template [].
Proof.
  apply unsupported_bytes_are_skipped; [left; reflexivity | discriminate].
Defined.

(** 65536 times 65536 wraps to 0 in the "multiply" export. *)
Lemma export_results_witness :
  WasmInstance.call_exported_function (host := RefHost.host) default_instance
    "multiply" [of_number 65536; of_number 65536]
  = Ok (of_number 0, default_instance).
Proof.
  exact (proj1 (proj2 (proj1
    (export_results (host := RefHost.host) RefWasmValue_laws
       default_instance default_instance eq_refl)
    (of_number 65536) (of_number 65536) []))).
Defined.

(** The instance's default memory has one page. *)
Lemma memory_pages_witness :
  WasmMemory.size (WasmMemory.new 1 1024) = 1.
Proof.
  exact (proj1 (memory_pages 1 1024 0 ltac:(lia))).
Defined.
